(** * Airdrop lottery CSV importer: a shallow embedding of
      [csv_import_script.py] and the properties of its batch pipeline.

    The script reads addresses from a CSV file, validates them, splits them
    into batches and hands every batch to the [aptos] command line client.
    The embedding follows the script method by method.  Python built-ins the
    script relies on ([range], slicing, [str.strip], [int(s, 16)]) are
    modelled in [Module Py]; logging, the subprocess and [time.sleep] are
    recorded as events of an explicit world state. *)

From Stdlib Require Import List ZArith NArith QArith Qabs Bool String Ascii Lia.
Import ListNotations.
Local Open Scope Z_scope.

(** ** Python values and built-ins *)

Module Py.

(** A Python [str] is a sequence of Unicode code points. *)
Definition codepoint := N.
Definition str := list codepoint.

Fixpoint lit (s : string) : str :=
  match s with
  | EmptyString => []
  | String a s' => N_of_ascii a :: lit s'
  end.

Definition len {A : Type} (l : list A) : Z := Z.of_nat (List.length l).

(** The exceptions the script meets.  All of them derive from [Exception];
    [OtherException] stands for any further subclass of [Exception].
    Asynchronous interrupts are not modelled. *)
Inductive exn : Type :=
| FileNotFoundError
| TimeoutExpired
| ValueError
| OverflowError
| AttributeError
| OtherException (descr : str).

Definition is_FileNotFoundError (e : exn) : bool :=
  match e with FileNotFoundError => true | _ => false end.

Definition is_TimeoutExpired (e : exn) : bool :=
  match e with TimeoutExpired => true | _ => false end.

Definition is_ValueError (e : exn) : bool :=
  match e with ValueError => true | _ => false end.

(** What evaluating a Python expression or statement leads to: a value, a
    raised exception, or [sys.exit(status)]. *)
Inductive outcome (A : Type) : Type :=
| Return (a : A)
| Raise (e : exn)
| SysExit (status : Z).
Arguments Return {A} a.
Arguments Raise {A} e.
Arguments SysExit {A} status.

(** [range(start, stop, step)], as the list of the values it yields. *)
Fixpoint range_from (start step : Z) (n : nat) : list Z :=
  match n with
  | O => []
  | S n' => start :: range_from (start + step) step n'
  end.

Definition range_len (start stop step : Z) : Z :=
  if 0 <? step
  then (if start <? stop then (stop - start - 1) / step + 1 else 0)
  else (if stop <? start then (start - stop - 1) / (- step) + 1 else 0).

Definition range (start stop step : Z) : outcome (list Z) :=
  if step =? 0 then Raise ValueError
  else Return (range_from start step (Z.to_nat (range_len start stop step))).

(** [l[i:j]]: negative bounds count from the end, all bounds are clamped. *)
Definition slice_index (n i : Z) : Z :=
  if i <? 0 then Z.max (i + n) 0 else Z.min i n.

Definition slice {A : Type} (l : list A) (i j : Z) : list A :=
  let lo := slice_index (len l) i in
  let hi := slice_index (len l) j in
  firstn (Z.to_nat (hi - lo)) (skipn (Z.to_nat lo) l).

Definition startswith (s prefix : str) : bool :=
  if list_eq_dec N.eq_dec (firstn (List.length prefix) s) prefix then true else false.

(** The interpreter's Unicode database, for code points outside ASCII:
    which are white space, and the value of those that are decimal digits.
    The tables depend on the Unicode version and are taken as a parameter. *)
Record unicode_db : Type := {
  IsWhitespace : codepoint -> bool;
  ToDecimalDigit : codepoint -> option N
}.

(** [_Py_ascii_whitespace]: TAB, LF, VT, FF, CR, FS, GS, RS, US and space. *)
Definition ascii_whitespace (c : codepoint) : bool :=
  ((9 <=? c) && (c <=? 13) || (28 <=? c) && (c <=? 32))%N.

Definition Py_UNICODE_ISSPACE (db : unicode_db) (c : codepoint) : bool :=
  if (c <? 128)%N then ascii_whitespace c else IsWhitespace db c.

Fixpoint lstrip (db : unicode_db) (s : str) : str :=
  match s with
  | [] => []
  | c :: s' => if Py_UNICODE_ISSPACE db c then lstrip db s' else s
  end.

(** [s.strip()] *)
Definition strip (db : unicode_db) (s : str) : str :=
  rev (lstrip db (rev (lstrip db s))).

(** *** [int(s, 16)] on a [str]

    First non-ASCII spaces and decimal digits are mapped to ASCII
    ([_PyUnicode_TransformDecimalAndSpaceToASCII]); then the ASCII text is
    parsed ([PyLong_FromString]): spaces, an optional sign, an optional
    [0x] prefix, digits with single underscores between them, spaces. *)

Fixpoint transform_chars (db : unicode_db) (s : str) : str :=
  match s with
  | [] => []
  | c :: s' =>
      if (c <? 127)%N then c :: transform_chars db s'
      else if Py_UNICODE_ISSPACE db c then 32%N :: transform_chars db s'
      else match ToDecimalDigit db c with
           | Some d => (48 + d)%N :: transform_chars db s'
           | None => [63%N]
           end
  end.

Definition transform_decimal_and_space_to_ascii (db : unicode_db) (s : str) : str :=
  if forallb (fun c => (c <? 128)%N) s then s else transform_chars db s.

(** [Py_ISSPACE] *)
Definition Py_ISSPACE (c : codepoint) : bool :=
  ((9 <=? c) && (c <=? 13) || (c =? 32))%N.

(** [_PyLong_DigitValue], restricted to the digits of base 16. *)
Definition hex_digit_value (c : codepoint) : option Z :=
  if ((48 <=? c) && (c <=? 57))%N then Some (Z.of_N c - 48)
  else if ((97 <=? c) && (c <=? 102))%N then Some (Z.of_N c - 87)
  else if ((65 <=? c) && (c <=? 70))%N then Some (Z.of_N c - 55)
  else None.

Definition underscore : codepoint := 95%N.

Fixpoint skip_spaces (s : str) : str :=
  match s with
  | [] => []
  | c :: s' => if Py_ISSPACE c then skip_spaces s' else s
  end.

(** The digit scan: [prev] tells whether the previous character was an
    underscore, [acc] is the value read so far, [digits] their number.
    [None] is a syntax error; otherwise the value, the number of digits and
    the text left. *)
Fixpoint scan_digits (s : str) (prev : bool) (acc : Z) (digits : nat)
  : option (Z * nat * str) :=
  match s with
  | [] => if prev then None else Some (acc, digits, [])
  | c :: s' =>
      if (c =? underscore)%N then
        if prev then None else scan_digits s' true acc digits
      else match hex_digit_value c with
           | Some d => scan_digits s' false (16 * acc + d) (S digits)
           | None => if prev then None else Some (acc, digits, s)
           end
  end.

Definition strip_sign (s : str) : Z * str :=
  match s with
  | c :: r =>
      if (c =? 43)%N then (1, r)
      else if (c =? 45)%N then (-1, r)
      else (1, s)
  | [] => (1, s)
  end.

(** The [0x] or [0X] prefix, and the one underscore allowed after it. *)
Definition strip_prefix16 (s : str) : str :=
  match s with
  | c :: x :: r =>
      if ((c =? 48) && ((x =? 120) || (x =? 88)))%N
      then match r with
           | u :: r' => if (u =? underscore)%N then r' else r
           | [] => r
           end
      else s
  | _ => s
  end.

Definition starts_with_underscore (s : str) : bool :=
  match s with
  | c :: _ => (c =? underscore)%N
  | [] => false
  end.

Definition long_from_string16 (s : str) : outcome Z :=
  let '(sign, s2) := strip_sign (skip_spaces s) in
  let s3 := strip_prefix16 s2 in
  if starts_with_underscore s3 then Raise ValueError
  else
    match scan_digits s3 false 0 O with
    | None => Raise ValueError
    | Some (_, O, _) => Raise ValueError
    | Some (v, S _, rest) =>
        match skip_spaces rest with
        | [] => Return (sign * v)
        | _ :: _ => Raise ValueError
        end
    end.

Definition int16 (db : unicode_db) (s : str) : outcome Z :=
  long_from_string16 (transform_decimal_and_space_to_ascii db s).

(** *** Floats and [time.sleep]

    A Python [float]: a finite value, an infinity, or not a number. *)
Inductive pyfloat : Type :=
| Finite (q : Q)
| Infinite (negative : bool)
| NaN.

(** The length of [q] seconds in nanoseconds, sign apart. *)
Definition nanoseconds (q : Q) : Q := (Qabs q * inject_Z 1000000000)%Q.

(** [time.sleep] turns its argument into a signed 64-bit number of
    nanoseconds and raises [OverflowError] when that does not fit, which
    happens from about 9.22e9 seconds on, in either direction.  At the very
    bound the answer depends on the rounding of the float product and on the
    version of the interpreter, so the test is a parameter, tied to the bound
    of 2^63 ns up to that rounding (2^11 ns). *)
Record clock_range : Type := {
  overflows : Q -> bool;
  overflows_beyond :
    forall q, (inject_Z (2 ^ 63 + 2 ^ 11) <= nanoseconds q)%Q -> overflows q = true;
  overflows_within :
    forall q, (nanoseconds q <= inject_Z (2 ^ 63 - 2 ^ 11))%Q -> overflows q = false
}.

(** The checks [time.sleep] makes on its argument, in their order: not a
    number, then the range of the clock, then the sign.  [None] when the
    argument is accepted. *)
Definition sleep_refusal (c : clock_range) (d : pyfloat) : option exn :=
  match d with
  | NaN => Some ValueError
  | Infinite _ => Some OverflowError
  | Finite q =>
      if overflows c q then Some OverflowError
      else if Qle_bool 0 q then None
      else Some ValueError
  end.

End Py.
Import Py.

(** ** The world around the script *)

(** The importer object ([self]). [delay] is a Python [float]. *)
Record Importer : Type := {
  contract_address : str;
  lottery_id : Z;
  batch_size : Z;
  delay : pyfloat
}.

(** The argument vector of the [aptos] invocation, by its variable parts:
    [--function-id <contract>::airdrop_lottery::add_participant],
    [--args u64:<lottery id> address:<JSON list of the addresses>]. *)
Record command : Type := {
  function_id_contract : str;
  arg_lottery_id : Z;
  arg_addresses : list str
}.

Inductive level : Type := DEBUG | INFO | WARNING | ERROR.

(** One constructor per logging call of the script, with the values its
    format string interpolates. *)
Inductive message : Type :=
| MsgInvalidAddress (row_num : Z) (address : str)
| MsgEmptyAddress (row_num : Z)
| MsgLoaded (count : Z)
| MsgCsvNotFound (csv_file : str)
| MsgCsvReadError (e : exn)
| MsgSplit (addresses batches : Z) (size : Z)
| MsgExecuting (count : Z)
| MsgCommand (cmd : command)
| MsgAdded (count : Z)
| MsgRunFailed
| MsgStdout (text : str)
| MsgStderr (text : str)
| MsgTimeout
| MsgUnexpected (e : exn)
| MsgStart
| MsgContract (address : str)
| MsgLotteryId (id : Z)
| MsgBatchSize (size : Z)
| MsgDelay (d : pyfloat)
| MsgDryRunMode
| MsgNoValidAddress
| MsgBatchHeader (i total : Z)
| MsgDryRunBatch (count : Z)
| MsgBatchFailed (i : Z)
| MsgWaiting (d : pyfloat)
| MsgSummaryHeader
| MsgSucceededBatches (count total : Z)
| MsgFailedBatches (count total : Z)
| MsgProcessed (count total : Z)
| MsgSomeFailed
| MsgAllSucceeded.

(** Everything the script does to the outside, in the order it happens:
    a record passed on by the logger, a call of [subprocess.run], a call of
    [time.sleep] that pauses. *)
Inductive event : Type :=
| Log (lvl : level) (msg : message)
| Spawn (cmd : command) (timeout : Z)
| Sleep (d : pyfloat).

(** What [subprocess.run] does with a command. *)
Inductive run_result : Type :=
| Completed (returncode : Z) (stdout stderr : str)
| RunRaises (e : exn).

(** A row as [csv.DictReader] yields it: a dict from column names to cells;
    a cell missing from a short row is [None]. *)
Definition row : Type := list (str * option str).

(** What opening and iterating the CSV file leads to: [open] raises, or the
    reader yields [rows] and then either ends or raises. *)
Inductive csv_source : Type :=
| OpenRaises (e : exn)
| Opened (rows : list row) (stop : option exn).

(** The environment of a run.  [subprocess_run n cmd timeout] is the result
    of the call made after [n] earlier ones. *)
Record env : Type := {
  unicode : unicode_db;
  clock : clock_range;
  open_csv : str -> csv_source;
  subprocess_run : nat -> command -> Z -> run_result
}.

(** The state a run changes: the events so far, the number of subprocess
    calls so far, and the threshold of the root logger. *)
Record world : Type := {
  trace : list event;
  spawned : nat;
  log_level : level
}.

(** [logging.basicConfig(level=logging.INFO, ...)] *)
Definition initial : world := {| trace := []; spawned := O; log_level := INFO |}.

Definition severity (l : level) : Z :=
  match l with DEBUG => 10 | INFO => 20 | WARNING => 30 | ERROR => 40 end.

(** ** A state and exception monad for statements *)

Definition M (A : Type) : Type := world -> outcome A * world.

Definition ret {A : Type} (a : A) : M A := fun w => (Return a, w).

Definition bind {A B : Type} (m : M A) (k : A -> M B) : M B :=
  fun w =>
    match m w with
    | (Return a, w') => k a w'
    | (Raise e, w') => (Raise e, w')
    | (SysExit c, w') => (SysExit c, w')
    end.

Notation "x <- m ;; k" := (bind m (fun x => k))
  (at level 61, m at next level, right associativity).
Notation "m ;; k" := (bind m (fun _ => k))
  (at level 61, right associativity).

Definition raise {A : Type} (e : exn) : M A := fun w => (Raise e, w).

Definition sys_exit {A : Type} (status : Z) : M A := fun w => (SysExit status, w).

Definition eval {A : Type} (o : outcome A) : M A := fun w => (o, w).

(** [try: body  except Exception as e: handler e] *)
Definition try_except {A : Type} (body : M A) (handler : exn -> M A) : M A :=
  fun w =>
    match body w with
    | (Raise e, w') => handler e w'
    | r => r
    end.

Definition emit (ev : event) : M unit :=
  fun w => (Return tt, {| trace := trace w ++ [ev]; spawned := spawned w;
                          log_level := log_level w |}).

(** A record below the logger's threshold is dropped. *)
Definition logger_log (lvl : level) (msg : message) : M unit :=
  fun w => if severity (log_level w) <=? severity lvl
           then emit (Log lvl msg) w else (Return tt, w).

Definition logger_debug (msg : message) : M unit := logger_log DEBUG msg.
Definition logger_info (msg : message) : M unit := logger_log INFO msg.
Definition logger_warning (msg : message) : M unit := logger_log WARNING msg.
Definition logger_error (msg : message) : M unit := logger_log ERROR msg.

(** [logging.getLogger().setLevel(lvl)] *)
Definition set_level (lvl : level) : M unit :=
  fun w => (Return tt, {| trace := trace w; spawned := spawned w; log_level := lvl |}).

(** [time.sleep(d)]: pauses, or raises what the check of its argument
    says. *)
Definition time_sleep (E : env) (d : pyfloat) : M unit :=
  match sleep_refusal (clock E) d with
  | Some e => raise e
  | None => emit (Sleep d)
  end.

(** [subprocess.run(cmd, capture_output=True, text=True, timeout=timeout)] *)
Definition run_subprocess (E : env) (cmd : command) (timeout : Z)
  : M (Z * str * str) :=
  fun w =>
    let w' := {| trace := trace w ++ [Spawn cmd timeout];
                 spawned := S (spawned w); log_level := log_level w |} in
    match subprocess_run E (spawned w) cmd timeout with
    | Completed rc out err => (Return (rc, out, err), w')
    | RunRaises e => (Raise e, w')
    end.

(** [for x in xs: body], threading the loop's local variables [s]. *)
Fixpoint for_each {A S : Type} (xs : list A) (body : A -> S -> M S) (s : S) : M S :=
  match xs with
  | [] => ret s
  | x :: xs' => s' <- body x s ;; for_each xs' body s'
  end.

(** [enumerate(xs, start)] *)
Fixpoint enumerate {A : Type} (xs : list A) (start : Z) : list (Z * A) :=
  match xs with
  | [] => []
  | x :: xs' => (start, x) :: enumerate xs' (start + 1)
  end.

(** ** The importer's methods *)

Definition str_eqb (a b : str) : bool :=
  if list_eq_dec N.eq_dec a b then true else false.

Definition is_empty {A : Type} (l : list A) : bool :=
  match l with [] => true | _ :: _ => false end.

(** [row.get(key, default)] *)
Definition dict_get (r : row) (key : str) (default : option str) : option str :=
  match find (fun kv => str_eqb (fst kv) key) r with
  | Some (_, v) => v
  | None => default
  end.

(** [validate_address]: the [0x] prefix, a non-empty rest, and [int(rest, 16)]
    not raising [ValueError]. *)
Definition validate_address (db : unicode_db) (address : str) : outcome bool :=
  if negb (startswith address (lit "0x")) then Return false
  else
    let hex_part := slice address 2 (len address) in
    if is_empty hex_part then Return false
    else
      match int16 db hex_part with
      | Return _ => Return true
      | Raise e => if is_ValueError e then Return false else Raise e
      | SysExit c => SysExit c
      end.

(** [create_batches]: one slice of [batch_size] addresses per index of
    [range(0, len(addresses), batch_size)]. *)
Definition create_batches (self : Importer) (addresses : list str)
  : M (list (list str)) :=
  indices <- eval (range 0 (len addresses) (batch_size self)) ;;
  let batches :=
    fold_left
      (fun batches i => batches ++ [slice addresses i (i + batch_size self)])
      indices [] in
  logger_info (MsgSplit (len addresses) (len batches) (batch_size self)) ;;
  ret batches.

(** The body of the loop of [read_csv] over the numbered rows. *)
Definition read_row (E : env) (address_column : str)
    (item : Z * row) (addresses : list str) : M (list str) :=
  let '(row_num, r) := item in
  match dict_get r address_column (Some []) with
  | None => raise AttributeError
  | Some cell =>
      let address := strip (unicode E) cell in
      if negb (is_empty address) then
        valid <- eval (validate_address (unicode E) address) ;;
        if valid : bool then ret (addresses ++ [address])
        else logger_warning (MsgInvalidAddress row_num address) ;; ret addresses
      else logger_warning (MsgEmptyAddress row_num) ;; ret addresses
  end.

Definition read_csv (E : env) (csv_file address_column : str) : M (list str) :=
  try_except
    (match open_csv E csv_file with
     | OpenRaises e => raise e
     | Opened rows stop =>
         addresses <- for_each (enumerate rows 2) (read_row E address_column) [] ;;
         match stop with Some e => raise e | None => ret tt end ;;
         logger_info (MsgLoaded (len addresses)) ;;
         ret addresses
     end)
    (fun e =>
       if is_FileNotFoundError e
       then logger_error (MsgCsvNotFound csv_file) ;; sys_exit 1
       else logger_error (MsgCsvReadError e) ;; sys_exit 1).

(** The bound the script passes to [subprocess.run]. *)
Definition run_timeout : Z := 120.

Definition command_of (self : Importer) (addresses : list str) : command :=
  {| function_id_contract := contract_address self;
     arg_lottery_id := lottery_id self;
     arg_addresses := addresses |}.

Definition execute_add_participant (E : env) (self : Importer)
    (addresses : list str) : M bool :=
  try_except
    (let cmd := command_of self addresses in
     logger_info (MsgExecuting (len addresses)) ;;
     logger_debug (MsgCommand cmd) ;;
     result <- run_subprocess E cmd run_timeout ;;
     let '(returncode, stdout, stderr) := result in
     if returncode =? 0 then
       logger_info (MsgAdded (len addresses)) ;; ret true
     else
       logger_error MsgRunFailed ;;
       logger_error (MsgStdout stdout) ;;
       logger_error (MsgStderr stderr) ;;
       ret false)
    (fun e =>
       if is_TimeoutExpired e then logger_error MsgTimeout ;; ret false
       else logger_error (MsgUnexpected e) ;; ret false).

(** The counters of [import_participants]. *)
Record counters : Type := {
  successful_batches : Z;
  failed_batches : Z;
  total_processed : Z
}.

Definition no_batches : counters :=
  {| successful_batches := 0; failed_batches := 0; total_processed := 0 |}.

Definition count_success (c : counters) (batch : list str) : counters :=
  {| successful_batches := successful_batches c + 1;
     failed_batches := failed_batches c;
     total_processed := total_processed c + len batch |}.

Definition count_failure (c : counters) : counters :=
  {| successful_batches := successful_batches c;
     failed_batches := failed_batches c + 1;
     total_processed := total_processed c |}.

(** The opening lines of [import_participants]: the configuration. *)
Definition log_configuration (self : Importer) (dry_run : bool) : M unit :=
  logger_info MsgStart ;;
  logger_info (MsgContract (contract_address self)) ;;
  logger_info (MsgLotteryId (lottery_id self)) ;;
  logger_info (MsgBatchSize (batch_size self)) ;;
  logger_info (MsgDelay (delay self)) ;;
  if dry_run then logger_info MsgDryRunMode else ret tt.

(** The body of the loop of [import_participants] over the numbered batches;
    [total] is [len(batches)]. *)
Definition process_batch (E : env) (self : Importer) (dry_run : bool) (total : Z)
    (item : Z * list str) (c : counters) : M counters :=
  let '(i, batch) := item in
  logger_info (MsgBatchHeader i total) ;;
  if dry_run then
    logger_info (MsgDryRunBatch (len batch)) ;;
    ret (count_success c batch)
  else
    success <- execute_add_participant E self batch ;;
    c' <- (if success : bool then ret (count_success c batch)
           else logger_error (MsgBatchFailed i) ;; ret (count_failure c)) ;;
    (if i <? total
     then logger_info (MsgWaiting (delay self)) ;; time_sleep E (delay self)
     else ret tt) ;;
    ret c'.

(** The closing lines of [import_participants]: the summary. *)
Definition log_summary (c : counters) (batches addresses : Z) : M unit :=
  logger_info MsgSummaryHeader ;;
  logger_info (MsgSucceededBatches (successful_batches c) batches) ;;
  logger_info (MsgFailedBatches (failed_batches c) batches) ;;
  logger_info (MsgProcessed (total_processed c) addresses) ;;
  if 0 <? failed_batches c then logger_warning MsgSomeFailed
  else logger_info MsgAllSucceeded.

Definition import_participants (E : env) (self : Importer)
    (csv_file address_column : str) (dry_run : bool) : M unit :=
  log_configuration self dry_run ;;
  addresses <- read_csv E csv_file address_column ;;
  if is_empty addresses then logger_error MsgNoValidAddress
  else
    batches <- create_batches self addresses ;;
    c <- for_each (enumerate batches 1)
                  (process_batch E self dry_run (len batches)) no_batches ;;
    log_summary c (len batches) (len addresses).

(** The parsed command line. *)
Record Args : Type := {
  arg_csv : str;
  arg_lottery : Z;
  arg_contract_address : str;
  arg_address_column : str;
  arg_batch_size : Z;
  arg_delay : pyfloat;
  arg_dry_run : bool;
  arg_verbose : bool
}.

Definition importer_of (args : Args) : Importer :=
  {| contract_address := arg_contract_address args;
     lottery_id := arg_lottery args;
     batch_size := arg_batch_size args;
     delay := arg_delay args |}.

Definition main (E : env) (args : Args) : M unit :=
  (if arg_verbose args then set_level DEBUG else ret tt) ;;
  let importer := importer_of args in
  import_participants E importer (arg_csv args) (arg_address_column args)
                      (arg_dry_run args).

(** The exit status of the process: 0 when [main] returns, the argument of
    [sys.exit], 1 for an exception nobody caught. *)
Definition exit_status {A : Type} (o : outcome A) : Z :=
  match o with
  | Return _ => 0
  | Raise _ => 1
  | SysExit c => c
  end.

Definition run_main (E : env) (args : Args) : Z * list event :=
  let '(o, w) := main E args initial in (exit_status o, trace w).

(** ** Vocabulary of the properties *)

(** The records a logger with threshold [th] lets through; subprocess calls
    and pauses always happen. *)
Definition passes (th : level) (ev : event) : bool :=
  match ev with
  | Log lvl _ => severity th <=? severity lvl
  | _ => true
  end.

Definition heard (th : level) (evs : list event) : list event :=
  filter (passes th) evs.

(** The world after the events [evs] and [n] subprocess calls. *)
Definition after (w : world) (evs : list event) (n : nat) : world :=
  {| trace := trace w ++ heard (log_level w) evs;
     spawned := (spawned w + n)%nat;
     log_level := log_level w |}.

(** What a run does besides logging. *)
Definition is_effect (ev : event) : bool :=
  match ev with Log _ _ => false | _ => true end.

Definition effects (evs : list event) : list event := filter is_effect evs.



(** The submission of one batch. *)
Definition spawn_of (self : Importer) (batch : list str) : event :=
  Spawn (command_of self batch) run_timeout.

(** A run of the external command succeeded: it completed with status 0. *)
Definition succeeded (r : run_result) : bool :=
  match r with
  | Completed rc _ _ => rc =? 0
  | RunRaises _ => false
  end.

(** The cell of a row under a column, as [read_csv] fetches it. *)
Definition cell_of (column : str) (r : row) : option str :=
  dict_get r column (Some []).

(** A row is broken when the reader gave it no cell for the column. *)
Definition broken_row (column : str) (r : row) : bool :=
  match cell_of column r with None => true | Some _ => false end.

(** The cells of the rows before the first broken one. *)
Fixpoint cells_read (column : str) (rows : list row) : list str :=
  match rows with
  | [] => []
  | r :: rows' =>
      match cell_of column r with
      | None => []
      | Some c => c :: cells_read column rows'
      end
  end.

Definition is_valid (db : unicode_db) (address : str) : bool :=
  match validate_address db address with
  | Return b => b
  | _ => false
  end.

(** The addresses kept from a sequence of cells: trimmed, then the non-empty
    and valid ones, in order. *)
Definition kept (db : unicode_db) (cells : list str) : list str :=
  filter (is_valid db) (filter (fun a => negb (is_empty a)) (map (strip db) cells)).

Definition row_warning (db : unicode_db) (item : Z * str) : list event :=
  let '(row_num, cell) := item in
  let address := strip db cell in
  if is_empty address then [Log WARNING (MsgEmptyAddress row_num)]
  else if is_valid db address then []
  else [Log WARNING (MsgInvalidAddress row_num address)].

Definition row_warnings (db : unicode_db) (cells : list str) (start : Z) : list event :=
  List.concat (map (row_warning db) (enumerate cells start)).

Definition read_error (csv_file : str) (e : exn) : event :=
  Log ERROR (if is_FileNotFoundError e then MsgCsvNotFound csv_file
             else MsgCsvReadError e).

(** The source is missing or unreadable: opening it raises, reading it
    raises, or a row lacks the cell of the column. *)
Definition source_fails (column : str) (src : csv_source) : bool :=
  match src with
  | OpenRaises _ => true
  | Opened rows stop =>
      existsb (broken_row column) rows ||
      match stop with Some _ => true | None => false end
  end.

(** The exception that ends the reading of a failing source. *)
Definition source_error (column : str) (src : csv_source) : option exn :=
  match src with
  | OpenRaises e => Some e
  | Opened rows stop =>
      if existsb (broken_row column) rows then Some AttributeError else stop
  end.

Definition source_cells (column : str) (src : csv_source) : list str :=
  match src with
  | OpenRaises _ => []
  | Opened rows _ => cells_read column rows
  end.

(** The slice [create_batches] takes at index [i]. *)
Definition chunk {A : Type} (l : list A) (size i : Z) : list A :=
  slice l i (i + size).

(** The batches [create_batches] builds when the range is defined. *)
Definition batches_of (size : Z) (addresses : list str) : list (list str) :=
  map (chunk addresses size)
      (range_from 0 size (Z.to_nat (range_len 0 (len addresses) size))).

Definition configuration_events (self : Importer) (dry_run : bool) : list event :=
  [Log INFO MsgStart;
   Log INFO (MsgContract (contract_address self));
   Log INFO (MsgLotteryId (lottery_id self));
   Log INFO (MsgBatchSize (batch_size self));
   Log INFO (MsgDelay (delay self))] ++
  (if dry_run then [Log INFO MsgDryRunMode] else []).

Definition summary_events (c : counters) (batches addresses : Z) : list event :=
  [Log INFO MsgSummaryHeader;
   Log INFO (MsgSucceededBatches (successful_batches c) batches);
   Log INFO (MsgFailedBatches (failed_batches c) batches);
   Log INFO (MsgProcessed (total_processed c) addresses);
   if 0 <? failed_batches c then Log WARNING MsgSomeFailed
   else Log INFO MsgAllSucceeded].

(** The events of one call of [execute_add_participant] whose subprocess
    call ends in [r]. *)
Definition outcome_events (count : Z) (r : run_result) : list event :=
  match r with
  | Completed rc out err =>
      if rc =? 0 then [Log INFO (MsgAdded count)]
      else [Log ERROR MsgRunFailed; Log ERROR (MsgStdout out);
            Log ERROR (MsgStderr err)]
  | RunRaises e =>
      [Log ERROR (if is_TimeoutExpired e then MsgTimeout else MsgUnexpected e)]
  end.

Definition execute_events (self : Importer) (batch : list str) (r : run_result)
  : list event :=
  [Log INFO (MsgExecuting (len batch));
   Log DEBUG (MsgCommand (command_of self batch));
   spawn_of self batch] ++ outcome_events (len batch) r.



Definition dry_batch_events (total : Z) (item : Z * list str) : list event :=
  [Log INFO (MsgBatchHeader (fst item) total);
   Log INFO (MsgDryRunBatch (len (snd item)))].

(** The thresholds a run can have let every record of level [INFO] or above
    through. *)
Definition audible (w : world) : Prop := log_level w = INFO \/ log_level w = DEBUG.

Definition above_debug (ev : event) : bool :=
  match ev with Log DEBUG _ => false | _ => true end.

(** The addresses a run reads, and what reading them logs. *)
Definition addresses_of (E : env) (csv_file column : str) : list str :=
  kept (unicode E) (source_cells column (open_csv E csv_file)).

Definition reading_events (E : env) (csv_file column : str) : list event :=
  let src := open_csv E csv_file in
  row_warnings (unicode E) (source_cells column src) 2 ++
  [match source_error column src with
   | Some e => read_error csv_file e
   | None => Log INFO (MsgLoaded (len (addresses_of E csv_file column)))
   end].

(** The world [main] starts the import in. *)
Definition start_world (args : Args) : world :=
  {| trace := []; spawned := O;
     log_level := if arg_verbose args then DEBUG else INFO |}.

(** The text the specification asks of an address: [0x], then one or more
    hexadecimal digits. *)
Definition is_hex_digit (c : codepoint) : bool :=
  ((48 <=? c) && (c <=? 57) || (97 <=? c) && (c <=? 102) ||
   (65 <=? c) && (c <=? 70))%N.

Definition matches_0x_hex (s : str) : bool :=
  match s with
  | 48%N :: 120%N :: h => negb (is_empty h) && forallb is_hex_digit h
  | _ => false
  end.

(** ** Sample inputs *)

Module Sample.

(** A Unicode database knowing the non-ASCII white space and two scripts'
    decimal digits (Arabic-Indic and fullwidth). *)
Definition db : unicode_db :=
  {| IsWhitespace := fun c =>
       ((c =? 133) || (c =? 160) || (c =? 5760) ||
        (8192 <=? c) && (c <=? 8202) || (c =? 8232) || (c =? 8233) ||
        (c =? 8239) || (c =? 8287) || (c =? 12288))%N;
     ToDecimalDigit := fun c =>
       if ((1632 <=? c) && (c <=? 1641))%N then Some (c - 1632)%N
       else if ((65296 <=? c) && (c <=? 65305))%N then Some (c - 65296)%N
       else None |}.

(** A clock that overflows from 2^63 ns on. *)
Definition clock64 : clock_range.
Proof.
  refine {| overflows := fun q => Qle_bool (inject_Z (2 ^ 63)) (nanoseconds q) |}.
  - intros q H. apply Qle_bool_iff.
    apply Qle_trans with (inject_Z (2 ^ 63 + 2 ^ 11)); [|exact H].
    rewrite <- Zle_Qle. lia.
  - intros q H.
    destruct (Qle_bool (inject_Z (2 ^ 63)) (nanoseconds q)) eqn:Hb; [|reflexivity].
    apply Qle_bool_iff in Hb.
    pose proof (Qle_trans _ _ _ Hb H) as Hc.
    rewrite <- Zle_Qle in Hc. lia.
Defined.

Definition column : str := lit "address".

Definition csv_row (cell : string) : row :=
  [(column, Some (lit cell)); (lit "name", Some (lit "someone"))].

Definition four_rows : list row :=
  map csv_row ["0xAB"; ""; "notHex"; "0x1"]%string.

Definition three_rows : list row :=
  map csv_row ["0xA1"; "0xB2"; "0xC3"]%string.

(** The second subprocess call exits with status 1, the others with 0. *)
Definition second_fails (n : nat) (cmd : command) (timeout : Z) : run_result :=
  match n with
  | 1%nat => Completed 1 [] (lit "rejected")
  | _ => Completed 0 [] []
  end.


Definition world_of (rows : list row) (run : nat -> command -> Z -> run_result) : env :=
  {| unicode := db;
     clock := clock64;
     open_csv := fun _ => Opened rows None;
     subprocess_run := run |}.

Definition args_of (size : Z) (dry_run : bool) : Args :=
  {| arg_csv := lit "participants.csv";
     arg_lottery := 1;
     arg_contract_address := lit "0x123";
     arg_address_column := column;
     arg_batch_size := size;
     arg_delay := Finite 2;
     arg_dry_run := dry_run;
     arg_verbose := false |}.

Definition importer (size : Z) : Importer := importer_of (args_of size false).

End Sample.

(** ** Vocabulary of the further properties *)


(** The address lists handed to [subprocess.run], in order. *)
Definition submitted (evs : list event) : list (list str) :=
  flat_map (fun ev => match ev with
                      | Spawn cmd _ => [arg_addresses cmd]
                      | _ => []
                      end) evs.

(** The warnings among events. *)
Definition warnings_in (evs : list event) : list event :=
  filter (fun ev => match ev with Log WARNING _ => true | _ => false end) evs.

(** The parsed command line with [--verbose] set or not. *)
Definition with_verbose (v : bool) (args : Args) : Args :=
  {| arg_csv := arg_csv args;
     arg_lottery := arg_lottery args;
     arg_contract_address := arg_contract_address args;
     arg_address_column := arg_address_column args;
     arg_batch_size := arg_batch_size args;
     arg_delay := arg_delay args;
     arg_dry_run := arg_dry_run args;
     arg_verbose := v |}.

(** Two worlds that differ by the logger's threshold only: [loud] has the
    threshold [DEBUG], [quiet] has [INFO] and the same trace without the
    [DEBUG] records. *)
Definition level_twin (loud quiet : world) : Prop :=
  spawned loud = spawned quiet /\
  log_level loud = DEBUG /\
  log_level quiet = INFO /\
  trace quiet = filter above_debug (trace loud).

(** A statement that does the same in both worlds. *)
Definition level_blind {A : Type} (m : M A) : Prop :=
  forall loud quiet,
    level_twin loud quiet ->
    fst (m loud) = fst (m quiet) /\ level_twin (snd (m loud)) (snd (m quiet)).

(** The number of batches of [n] addresses in batches of [size]. *)
Definition batch_count (n size : Z) : Z := (n + size - 1) / size.

Module Cases.

(** A row of a two-column file that stops after the name. *)
Definition short_row : row :=
  [(lit "name", Some (lit "someone")); (Sample.column, None)].

(** A row of a file that has no address column at all. *)
Definition other_row (name : string) : row :=
  [(lit "name", Some (lit name)); (lit "wallet", Some (lit "0x1"))].


Definition missing_file : env :=
  {| unicode := Sample.db;
     clock := Sample.clock64;
     open_csv := fun _ => OpenRaises FileNotFoundError;
     subprocess_run := Sample.second_fails |}.

End Cases.

(** ** Running statements: equations of the monad *)

Lemma heard_app (th : level) (a b : list event) :
  heard th (a ++ b) = heard th a ++ heard th b.
Proof. apply filter_app. Qed.

Lemma after_nothing (w : world) : after w [] 0 = w.
Proof.
  unfold after. cbn. rewrite app_nil_r, Nat.add_0_r. now destruct w.
Qed.

Lemma after_after (w : world) (a b : list event) (n m : nat) :
  after (after w a n) b m = after w (a ++ b) (n + m).
Proof.
  unfold after. cbn. rewrite heard_app, app_assoc, Nat.add_assoc. reflexivity.
Qed.

Lemma spawned_after (w : world) (evs : list event) (n : nat) :
  spawned (after w evs n) = (spawned w + n)%nat.
Proof. reflexivity. Qed.

Lemma log_level_after (w : world) (evs : list event) (n : nat) :
  log_level (after w evs n) = log_level w.
Proof. reflexivity. Qed.

Lemma trace_after (w : world) (evs : list event) (n : nat) :
  trace (after w evs n) = trace w ++ heard (log_level w) evs.
Proof. reflexivity. Qed.

Lemma logger_log_run (lvl : level) (msg : message) (w : world) :
  logger_log lvl msg w = (Return tt, after w [Log lvl msg] 0).
Proof.
  unfold logger_log, emit, after, heard. cbn.
  destruct (severity (log_level w) <=? severity lvl); rewrite Nat.add_0_r.
  - reflexivity.
  - rewrite app_nil_r. now destruct w.
Qed.

Lemma bind_log {B : Type} (lvl : level) (msg : message) (k : unit -> M B) (w : world) :
  bind (logger_log lvl msg) k w = k tt (after w [Log lvl msg] 0).
Proof. unfold bind. now rewrite logger_log_run. Qed.

Lemma bind_ret {A B : Type} (a : A) (k : A -> M B) (w : world) :
  bind (ret a) k w = k a w.
Proof. reflexivity. Qed.

Lemma run_subprocess_run (E : env) (cmd : command) (timeout : Z) (w : world) :
  run_subprocess E cmd timeout w =
  (match subprocess_run E (spawned w) cmd timeout with
   | Completed rc out err => Return (rc, out, err)
   | RunRaises e => Raise e
   end, after w [Spawn cmd timeout] 1).
Proof.
  unfold run_subprocess, after. cbn. rewrite Nat.add_1_r.
  now destruct (subprocess_run E (spawned w) cmd timeout).
Qed.



Lemma bind_bind {A B C : Type} (m : M A) (f : A -> M B) (g : B -> M C) (w : world) :
  bind (bind m f) g w = bind m (fun a => bind (f a) g) w.
Proof.
  unfold bind. destruct (m w) as [[a|e|c] w']; reflexivity.
Qed.

(** Unfolds the logging calls and runs the straight-line statements. *)
Ltac run_logs :=
  unfold logger_info, logger_debug, logger_warning, logger_error;
  repeat (rewrite bind_bind || rewrite bind_log || rewrite after_after
          || rewrite logger_log_run || rewrite bind_ret);
  cbn [app Nat.add].

(** ** The effects in a trace *)

Lemma effects_app (a b : list event) : effects (a ++ b) = effects a ++ effects b.
Proof. apply filter_app. Qed.

Lemma effects_heard (th : level) (evs : list event) :
  effects (heard th evs) = effects evs.
Proof.
  induction evs as [|ev evs IH]; [reflexivity|].
  unfold heard, effects in *. cbn.
  destruct ev; cbn; try (now rewrite IH).
  destruct (severity th <=? severity lvl); cbn; exact IH.
Qed.

Lemma heard_audible (w : world) (evs : list event) :
  audible w -> forallb above_debug evs = true -> heard (log_level w) evs = evs.
Proof.
  intros Ha. induction evs as [|ev evs IH]; [reflexivity|].
  cbn. intros H. apply andb_prop in H as [H1 H2].
  unfold heard in *. cbn. rewrite IH by trivial.
  replace (passes (log_level w) ev) with true; [reflexivity|].
  destruct ev as [lvl msg| |]; trivial.
  destruct Ha as [-> | ->]; now destruct lvl.
Qed.


(** ** The Batcher *)

Section Batcher.

Context {A : Type}.
Variable l : list A.
Variable size : Z.
Hypothesis size_pos : 0 < size.

Local Abbreviation chunk := (chunk l size).

Lemma fold_append {B : Type} (f : Z -> B) (indices : list Z) (acc : list B) :
  fold_left (fun batches i => batches ++ [f i]) indices acc = acc ++ map f indices.
Proof.
  revert acc. induction indices as [|i indices IH]; intros acc; cbn.
  - now rewrite app_nil_r.
  - rewrite IH, <- app_assoc. reflexivity.
Qed.

Lemma range_len_next (i : Z) :
  0 <= i < len l ->
  range_len i (len l) size = 1 + range_len (i + size) (len l) size.
Proof.
  intros Hi. unfold range_len.
  destruct (Z.ltb_spec 0 size); [|lia].
  destruct (Z.ltb_spec i (len l)); [|lia].
  destruct (Z.ltb_spec (i + size) (len l)).
  - replace (len l - i - 1) with ((len l - (i + size) - 1) + 1 * size) by lia.
    rewrite Z.div_add by lia. lia.
  - rewrite Z.div_small by lia. lia.
Qed.

Lemma range_len_done (i : Z) : len l <= i -> range_len i (len l) size = 0.
Proof.
  intros Hi. unfold range_len.
  destruct (Z.ltb_spec 0 size); [|lia].
  destruct (Z.ltb_spec i (len l)); [lia|reflexivity].
Qed.

Lemma range_len_nonneg (i : Z) : 0 <= i -> 0 <= range_len i (len l) size.
Proof.
  intros Hi. unfold range_len.
  destruct (Z.ltb_spec 0 size); [|lia].
  destruct (Z.ltb_spec i (len l)); [|lia].
  assert (0 <= (len l - i - 1) / size) by (apply Z.div_pos; lia). lia.
Qed.

Lemma chunk_eq (i : Z) :
  0 <= i < len l ->
  chunk i = firstn (Z.to_nat size) (skipn (Z.to_nat i) l).
Proof.
  intros Hi. unfold chunk, slice, slice_index.
  destruct (Z.ltb_spec i 0); [lia|].
  destruct (Z.ltb_spec (i + size) 0); [lia|].
  rewrite (Z.min_l i) by lia.
  destruct (Z.le_gt_cases (i + size) (len l)).
  - rewrite Z.min_l by lia. f_equal. lia.
  - rewrite Z.min_r by lia.
    rewrite !firstn_all2; trivial; rewrite length_skipn; unfold len in *; lia.
Qed.

Lemma chunk_length (i : Z) :
  0 <= i < len l -> len (chunk i) = Z.min size (len l - i).
Proof.
  intros Hi. rewrite chunk_eq by trivial. unfold len in *.
  rewrite length_firstn, length_skipn. lia.
Qed.

(** The chunks from index [i] on make up the list from [i] on. *)
Lemma chunks_from (n : nat) : forall i : Z,
  0 <= i ->
  n = Z.to_nat (range_len i (len l) size) ->
  List.concat (map chunk (range_from i size n)) = skipn (Z.to_nat i) l.
Proof.
  induction n as [|n IH]; intros i Hi Hn; cbn.
  - symmetry. apply skipn_all2.
    destruct (Z.lt_ge_cases i (len l)) as [Hlt|Hge]; [|unfold len in *; lia].
    rewrite range_len_next in Hn by lia.
    pose proof (range_len_nonneg (i + size)). lia.
  - assert (Hlt : i < len l).
    { destruct (Z.lt_ge_cases i (len l)); trivial.
      rewrite range_len_done in Hn by lia. discriminate. }
    rewrite IH; [| lia |].
    + rewrite chunk_eq by lia.
      replace (Z.to_nat (i + size)) with (Z.to_nat size + Z.to_nat i)%nat by lia.
      rewrite <- skipn_skipn. apply firstn_skipn.
    + rewrite range_len_next in Hn by lia.
      pose proof (range_len_nonneg (i + size)). lia.
Qed.

(** Every index of the range lies inside the list. *)
Lemma range_in_bounds (n : nat) : forall i : Z,
  0 <= i ->
  n = Z.to_nat (range_len i (len l) size) ->
  Forall (fun j => 0 <= j < len l) (range_from i size n).
Proof.
  induction n as [|n IH]; intros i Hi Hn; cbn; constructor.
  - destruct (Z.lt_ge_cases i (len l)); [lia|].
    rewrite range_len_done in Hn by lia. discriminate.
  - apply IH; [lia|].
    destruct (Z.lt_ge_cases i (len l)).
    + rewrite range_len_next in Hn by lia.
      pose proof (range_len_nonneg (i + size)). lia.
    + rewrite range_len_done in Hn by lia. discriminate.
Qed.

End Batcher.

Lemma create_batches_run (self : Importer) (addresses : list str) (w : world) :
  batch_size self <> 0 ->
  let batches := batches_of (batch_size self) addresses in
  create_batches self addresses w =
  (Return batches,
   after w [Log INFO (MsgSplit (len addresses) (len batches) (batch_size self))] 0).
Proof.
  intros Hs batches. unfold create_batches, eval, range.
  destruct (Z.eqb_spec (batch_size self) 0); [contradiction|].
  unfold bind at 1. rewrite fold_append. cbn [app].
  fold (batches_of (batch_size self) addresses). fold batches.
  run_logs. reflexivity.
Qed.

Lemma create_batches_zero (self : Importer) (addresses : list str) (w : world) :
  batch_size self = 0 ->
  create_batches self addresses w = (Raise ValueError, w).
Proof.
  intros Hs. unfold create_batches, eval, range. rewrite Hs. reflexivity.
Qed.

Lemma batches_of_negative (size : Z) (addresses : list str) :
  size <= 0 -> batches_of size addresses = [].
Proof.
  intros Hs. unfold batches_of, range_len.
  destruct (Z.ltb_spec 0 size); [lia|].
  destruct (Z.ltb_spec (len addresses) 0); [unfold len in *; lia|]. reflexivity.
Qed.

Lemma batches_of_concat (size : Z) (addresses : list str) :
  0 < size -> List.concat (batches_of size addresses) = addresses.
Proof.
  intros Hs. unfold batches_of.
  rewrite (chunks_from addresses size Hs _ 0); [reflexivity | lia | reflexivity].
Qed.

Lemma batches_of_bounds (size : Z) (addresses : list str) :
  0 < size ->
  Forall (fun b => 0 < len b <= size) (batches_of size addresses).
Proof.
  intros Hs. unfold batches_of. apply Forall_map.
  eapply Forall_impl; [| apply (range_in_bounds addresses size Hs _ 0); [lia|reflexivity]].
  cbn. intros i Hi. rewrite chunk_length by trivial. lia.
Qed.

Lemma full_chunks (size : Z) (addresses : list str) (n : nat) :
  0 < size ->
  forall (i : Z) (front : list (list str)) (last : list str),
    Forall (fun j => 0 <= j < len addresses) (range_from i size n) ->
    map (chunk addresses size) (range_from i size n) = front ++ [last] ->
    Forall (fun b => len b = size) front.
Proof.
  intros Hs. induction n as [|n IH]; intros i front last Hb Heq; cbn in Heq.
  - now destruct front.
  - destruct front as [|b front]; [constructor|].
    cbn in Heq. injection Heq as Hb1 Hrest.
    inversion Hb as [|? ? Hi Hb']; subst.
    constructor.
    + destruct n as [|n]; [now destruct front|].
      cbn in Hb'. inversion Hb' as [|? ? Hi' _]; subst.
      rewrite chunk_length by trivial. lia.
    + eapply IH; eauto.
Qed.

Lemma batches_of_full (size : Z) (addresses : list str) front last :
  0 < size ->
  batches_of size addresses = front ++ [last] ->
  Forall (fun b => len b = size) front.
Proof.
  intros Hs Heq. eapply (full_chunks size addresses _ Hs 0); [|exact Heq].
  apply range_in_bounds; [trivial|lia|reflexivity].
Qed.

Lemma batches_of_lengths (size : Z) (addresses : list str) :
  0 < size ->
  map len (batches_of size addresses) =
  map (fun i => Z.min size (len addresses - i))
      (range_from 0 size (Z.to_nat (range_len 0 (len addresses) size))).
Proof.
  intros Hs. unfold batches_of. rewrite map_map. apply map_ext_Forall.
  eapply Forall_impl; [| apply (range_in_bounds addresses size Hs _ 0); [lia|reflexivity]].
  cbn. intros i Hi. now apply chunk_length.
Qed.

(** C1. For a positive batch size [create_batches] returns, and the batches
    it returns, concatenated in order, are the input list; none is empty. *)
Theorem create_batches_roundtrip (self : Importer) (addresses : list str) (w : world) :
  0 < batch_size self ->
  exists batches w',
    create_batches self addresses w = (Return batches, w') /\
    List.concat batches = addresses /\
    Forall (fun b => b <> []) batches.
Proof.
  intros Hs. eexists _, _. split; [apply create_batches_run; lia|]. split.
  - now apply batches_of_concat.
  - eapply Forall_impl; [|apply batches_of_bounds; exact Hs].
    cbn. intros b Hb ->. cbn in Hb. lia.
Qed.

Lemma create_batches_roundtrip_witness :
  exists batches w',
    create_batches (Sample.importer 2)
      (map lit ["0xA1"; "0xB2"; "0xC3"; "0xA1"; "0xD4"]%string) initial
    = (Return batches, w') /\
    List.concat batches = map lit ["0xA1"; "0xB2"; "0xC3"; "0xA1"; "0xD4"]%string /\
    Forall (fun b => b <> []) batches.
Proof. apply create_batches_roundtrip. reflexivity. Defined.

(** C9. For a positive batch size every batch has at most [batch_size]
    addresses and every batch but the last has exactly [batch_size]; 2500
    addresses in batches of 1000 give three batches of 1000, 1000 and 500. *)
Theorem create_batches_sizes (self : Importer) (addresses : list str) (w : world) :
  0 < batch_size self ->
  exists batches w',
    create_batches self addresses w = (Return batches, w') /\
    Forall (fun b => len b <= batch_size self) batches /\
    (forall front last, batches = front ++ [last] ->
       Forall (fun b => len b = batch_size self) front) /\
    (len addresses = 2500 -> batch_size self = 1000 ->
       map len batches = [1000; 1000; 500]).
Proof.
  intros Hs. eexists _, _. split; [apply create_batches_run; lia|].
  split; [|split].
  - eapply Forall_impl; [|apply batches_of_bounds; exact Hs]. cbn. lia.
  - intros front last Heq. now apply batches_of_full in Heq.
  - intros Hn Hb. rewrite batches_of_lengths by trivial.
    rewrite Hn, Hb. reflexivity.
Qed.

Lemma create_batches_sizes_witness :
  exists batches w',
    create_batches (Sample.importer 1000) (repeat (lit "0x1") 2500) initial
    = (Return batches, w') /\
    map len batches = [1000; 1000; 500].
Proof.
  destruct (create_batches_sizes (Sample.importer 1000) (repeat (lit "0x1") 2500)
              initial eq_refl) as (batches & w' & Hrun & _ & _ & Hsizes).
  exists batches, w'. split; [exact Hrun|].
  apply Hsizes; [|reflexivity].
  unfold len. rewrite repeat_length. reflexivity.
Defined.

(** ** The Validator *)

Lemma long_from_string16_outcome (s : str) :
  (exists v, long_from_string16 s = Return v) \/ long_from_string16 s = Raise ValueError.
Proof.
  unfold long_from_string16.
  destruct (strip_sign (skip_spaces s)) as [sign s2].
  destruct (starts_with_underscore (strip_prefix16 s2)); [now right|].
  destruct (scan_digits (strip_prefix16 s2) false 0 0) as [[[v digits] rest]|];
    [|now right].
  destruct digits; [now right|].
  destruct (skip_spaces rest); [left; eauto | now right].
Qed.

(** [validate_address] always returns a boolean. *)
Lemma validate_address_returns (db : unicode_db) (s : str) :
  validate_address db s = Return (is_valid db s).
Proof.
  unfold is_valid, validate_address.
  destruct (negb (startswith s (lit "0x"))); [reflexivity|].
  destruct (is_empty (slice s 2 (len s))); [reflexivity|].
  unfold int16.
  destruct (long_from_string16_outcome
              (transform_decimal_and_space_to_ascii db (slice s 2 (len s))))
    as [[v ->] | ->]; reflexivity.
Qed.

(** Turns boolean comparisons of code points among the hypotheses into
    arithmetic. *)
Ltac code_points :=
  repeat match goal with
  | H : (_ && _)%bool = true |- _ => apply andb_prop in H as [? ?]
  | H : (_ && _)%bool = false |- _ => apply andb_false_iff in H as [H|H]
  | H : (_ || _)%bool = true |- _ => apply orb_prop in H as [H|H]
  | H : (_ || _)%bool = false |- _ => apply orb_false_iff in H as [? ?]
  | H : (_ <=? _)%N = true |- _ => apply N.leb_le in H
  | H : (_ <=? _)%N = false |- _ => apply N.leb_gt in H
  | H : (_ <? _)%N = true |- _ => apply N.ltb_lt in H
  | H : (_ <? _)%N = false |- _ => apply N.ltb_ge in H
  | H : (_ =? _)%N = true |- _ => apply N.eqb_eq in H
  | H : (_ =? _)%N = false |- _ => apply N.eqb_neq in H
  end.

(** What the parser of [int] sees in a hexadecimal digit. *)
Lemma hex_digit_facts (c : codepoint) :
  is_hex_digit c = true ->
  (c <? 128)%N = true /\ Py_ISSPACE c = false /\
  (c =? 43)%N = false /\ (c =? 45)%N = false /\
  (c =? 120)%N = false /\ (c =? 88)%N = false /\
  (c =? underscore)%N = false /\
  exists d, hex_digit_value c = Some d.
Proof.
  unfold is_hex_digit, Py_ISSPACE, hex_digit_value, underscore. intros H.
  repeat split;
    try (match goal with |- ?b = _ => destruct b eqn:E end;
         trivial; code_points; lia).
  destruct ((48 <=? c) && (c <=? 57))%N eqn:E1; [eauto|].
  destruct ((97 <=? c) && (c <=? 102))%N eqn:E2; [eauto|].
  destruct ((65 <=? c) && (c <=? 70))%N eqn:E3; [eauto|].
  exfalso. code_points; lia.
Qed.

Lemma scan_hex_digits (h : str) :
  forallb is_hex_digit h = true ->
  forall (acc : Z) (digits : nat),
    exists v, scan_digits h false acc digits = Some (v, (digits + List.length h)%nat, []).
Proof.
  induction h as [|c h IH]; intros Hh acc digits; cbn [scan_digits List.length].
  - rewrite Nat.add_0_r. eauto.
  - cbn in Hh. apply andb_prop in Hh as [Hc Hh].
    destruct (hex_digit_facts c Hc) as (_ & _ & _ & _ & _ & _ & -> & d & ->).
    replace (digits + S (List.length h))%nat with (S digits + List.length h)%nat by lia.
    apply IH, Hh.
Qed.

Lemma int16_hex_digits (db : unicode_db) (h : str) :
  h <> [] -> forallb is_hex_digit h = true -> exists v, int16 db h = Return v.
Proof.
  intros Hne Hh. unfold int16, transform_decimal_and_space_to_ascii.
  replace (forallb (fun c => (c <? 128)%N) h) with true.
  2:{ symmetry. apply forallb_forall. intros c Hc.
      rewrite forallb_forall in Hh. now apply hex_digit_facts, Hh. }
  destruct h as [|c h]; [contradiction|].
  pose proof Hh as Hall. cbn in Hh. apply andb_prop in Hh as [Hc Hh].
  destruct (hex_digit_facts c Hc) as (_ & Hsp & Hplus & Hminus & _ & _ & Hu & _).
  unfold long_from_string16. cbn [skip_spaces]. rewrite Hsp.
  cbn [strip_sign]. rewrite Hplus, Hminus.
  assert (Hprefix : strip_prefix16 (c :: h) = c :: h).
  { destruct h as [|x h]; [reflexivity|]. cbn [strip_prefix16].
    cbn in Hh. apply andb_prop in Hh as [Hx _].
    destruct (hex_digit_facts x Hx) as (_ & _ & _ & _ & -> & -> & _).
    now rewrite andb_false_r. }
  rewrite Hprefix. cbn [starts_with_underscore]. rewrite Hu.
  destruct (scan_hex_digits (c :: h) Hall 0 0) as [v ->].
  cbn. eauto.
Qed.

Lemma slice_tail {A : Type} (a b : A) (h : list A) :
  slice (a :: b :: h) 2 (len (a :: b :: h)) = h.
Proof.
  unfold slice, slice_index.
  assert (H : len (a :: b :: h) = 2 + len h) by (unfold len; cbn [List.length]; lia).
  rewrite H. pose proof (Nat2Z.is_nonneg (List.length h)). fold (len h) in *.
  destruct (Z.ltb_spec 2 0); [lia|].
  destruct (Z.ltb_spec (2 + len h) 0); [lia|].
  rewrite !Z.min_l by lia.
  replace (Z.to_nat (2 + len h - 2)) with (List.length h) by (unfold len; lia).
  cbn. apply firstn_all.
Qed.

Lemma matches_0x_hex_inv (s : str) :
  matches_0x_hex s = true ->
  exists h, s = 48%N :: 120%N :: h /\ h <> [] /\ forallb is_hex_digit h = true.
Proof.
  unfold matches_0x_hex. intros H.
  destruct s as [|a s]; [discriminate|].
  destruct a as [|p]; [discriminate|].
  repeat (destruct p as [p|p|]; try discriminate).
  destruct s as [|b h]; [discriminate|].
  destruct b as [|p]; [discriminate|].
  repeat (destruct p as [p|p|]; try discriminate).
  apply andb_prop in H as [Hne Hh].
  exists h. repeat split; trivial. intros ->. discriminate.
Qed.

(** Every text of the form the specification asks is accepted. *)
Lemma validate_address_accepts (db : unicode_db) (s : str) :
  matches_0x_hex s = true -> validate_address db s = Return true.
Proof.
  intros H. apply matches_0x_hex_inv in H as (h & -> & Hne & Hh).
  unfold validate_address.
  replace (startswith (48%N :: 120%N :: h) (lit "0x")) with true by reflexivity.
  cbn [negb]. cbv zeta. rewrite slice_tail.
  destruct h as [|c h]; [contradiction|]. cbn [is_empty].
  destruct (int16_hex_digits db (c :: h)) as [v ->]; trivial.
Qed.

(** The same holds beyond ASCII: a fullwidth digit one passes as well. *)
Example validate_address_fullwidth_digit :
  validate_address Sample.db (lit "0x" ++ [65297%N]) = Return true.
Proof. reflexivity. Qed.

Example validate_address_rejects :
  map (validate_address Sample.db)
      (map lit [""; "0x"; "0X1"; "notHex"; "0xg"; "0x1__0"; "0x_1"; "0x1_"; "0x- 1"]%string)
  = repeat (Return false) 9.
Proof. reflexivity. Qed.

(** C2. [validate_address] accepts texts that are not [0x] followed by
    hexadecimal digits: a sign, a second [0x] prefix, an underscore between
    digits and spaces around the digits all pass [int(hex_part, 16)]. *)
Theorem validate_address_accepts_non_hex (db : unicode_db) :
  (validate_address db (lit "0x-1") = Return true /\
   matches_0x_hex (lit "0x-1") = false) /\
  (validate_address db (lit "0x0x1f") = Return true /\
   matches_0x_hex (lit "0x0x1f") = false) /\
  (validate_address db (lit "0x1_0") = Return true /\
   matches_0x_hex (lit "0x1_0") = false) /\
  (validate_address db (lit "0x 1") = Return true /\
   matches_0x_hex (lit "0x 1") = false).
Proof. repeat split; reflexivity. Qed.

(** ** The Reader *)

Lemma kept_cons (db : unicode_db) (cell : str) (cells : list str) :
  kept db (cell :: cells) = kept db [cell] ++ kept db cells.
Proof.
  unfold kept. cbn [map filter].
  destruct (negb (is_empty (strip db cell))); cbn [filter]; [|reflexivity].
  destruct (is_valid db (strip db cell)); reflexivity.
Qed.

Lemma row_warnings_cons (db : unicode_db) (cell : str) (cells : list str) (k : Z) :
  row_warnings db (cell :: cells) k =
  row_warning db (k, cell) ++ row_warnings db cells (k + 1).
Proof. reflexivity. Qed.

Lemma read_row_run (E : env) (column : str) (row_num : Z) (r : row)
    (addresses : list str) (w : world) :
  read_row E column (row_num, r) addresses w =
  match cell_of column r with
  | None => (Raise AttributeError, w)
  | Some cell =>
      (Return (addresses ++ kept (unicode E) [cell]),
       after w (row_warning (unicode E) (row_num, cell)) 0)
  end.
Proof.
  unfold read_row, cell_of.
  destruct (dict_get r column (Some [])) as [cell|]; [|reflexivity].
  unfold kept, row_warning. cbn [map filter].
  destruct (is_empty (strip (unicode E) cell)); cbn [negb filter].
  - run_logs. now rewrite app_nil_r.
  - unfold bind at 1, eval. rewrite validate_address_returns.
    destruct (is_valid (unicode E) (strip (unicode E) cell)).
    + unfold ret. now rewrite after_nothing.
    + run_logs. now rewrite app_nil_r.
Qed.

Lemma read_rows_run (E : env) (column : str) (rows : list row) :
  forall (k : Z) (addresses : list str) (w : world),
    for_each (enumerate rows k) (read_row E column) addresses w =
    ((if existsb (broken_row column) rows then Raise AttributeError
      else Return (addresses ++ kept (unicode E) (cells_read column rows))),
     after w (row_warnings (unicode E) (cells_read column rows) k) 0).
Proof.
  induction rows as [|r rows IH]; intros k addresses w.
  - cbn. now rewrite app_nil_r, after_nothing.
  - cbn [enumerate for_each existsb cells_read]. unfold bind.
    rewrite read_row_run. unfold broken_row at 1.
    destruct (cell_of column r) as [cell|]; cbn [orb].
    + rewrite IH, after_after, row_warnings_cons.
      rewrite (kept_cons _ cell (cells_read column rows)), <- app_assoc.
      reflexivity.
    + now rewrite after_nothing.
Qed.

Lemma read_csv_run (E : env) (csv_file column : str) (w : world) :
  let src := open_csv E csv_file in
  let cells := source_cells column src in
  read_csv E csv_file column w =
  match source_error column src with
  | Some e =>
      (SysExit 1,
       after w (row_warnings (unicode E) cells 2 ++ [read_error csv_file e]) 0)
  | None =>
      (Return (kept (unicode E) cells),
       after w (row_warnings (unicode E) cells 2 ++
                [Log INFO (MsgLoaded (len (kept (unicode E) cells)))]) 0)
  end.
Proof.
  cbv zeta. unfold read_csv, try_except.
  destruct (open_csv E csv_file) as [e|rows stop]; cbn [source_error source_cells].
  - unfold raise, read_error.
    destruct (is_FileNotFoundError e); run_logs; reflexivity.
  - unfold bind at 1. rewrite read_rows_run. cbn [app].
    destruct (existsb (broken_row column) rows).
    + unfold read_error. cbn [is_FileNotFoundError]. run_logs. reflexivity.
    + destruct stop as [e|].
      * unfold bind at 1, raise, read_error.
        destruct (is_FileNotFoundError e); run_logs; reflexivity.
      * run_logs. reflexivity.
Qed.

Lemma source_error_fails (column : str) (src : csv_source) :
  source_fails column src = true <-> source_error column src <> None.
Proof.
  destruct src as [e|rows stop]; cbn.
  - split; [discriminate|trivial].
  - destruct (existsb (broken_row column) rows); cbn.
    + split; [discriminate|trivial].
    + destruct stop; split; try discriminate; trivial. now intros [].
Qed.

Lemma cells_read_all (column : str) (rows : list row) (cells : list str) :
  map (cell_of column) rows = map Some cells ->
  cells_read column rows = cells /\ existsb (broken_row column) rows = false.
Proof.
  revert cells. induction rows as [|r rows IH]; intros [|c cells] H;
    try discriminate; [now split|].
  cbn in H. injection H as Hr Hrows. destruct (IH cells Hrows) as [IH1 IH2].
  cbn [cells_read existsb]. unfold broken_row at 1.
  rewrite Hr, IH1, IH2. now split.
Qed.

Lemma row_warnings_above_debug (db : unicode_db) (cells : list str) :
  forall k, forallb above_debug (row_warnings db cells k) = true.
Proof.
  induction cells as [|c cells IH]; intros k; [reflexivity|].
  rewrite row_warnings_cons, forallb_app, IH, andb_true_r.
  unfold row_warning.
  destruct (is_empty (strip db c)); [reflexivity|].
  now destruct (is_valid db (strip db c)).
Qed.

(** C6. From a source whose rows all have a cell under the column,
    [read_csv] returns the trimmed cells that are non-empty and valid, in file
    order and with repetitions, and logs one warning per other row; for the
    cells ["0xAB"], [""], ["notHex"], ["0x1"] it returns ["0xAB"], ["0x1"] and
    logs two warnings, for the empty row 3 and the malformed row 4. *)
Theorem read_csv_keeps_valid_rows (E : env) (csv_file column : str)
    (rows : list row) (cells : list str) (w : world) :
  open_csv E csv_file = Opened rows None ->
  map (cell_of column) rows = map Some cells ->
  audible w ->
  exists w',
    read_csv E csv_file column w =
      (Return (filter (is_valid (unicode E))
                 (filter (fun a => negb (is_empty a))
                    (map (strip (unicode E)) cells))), w') /\
    trace w' = trace w ++ row_warnings (unicode E) cells 2 ++
               [Log INFO (MsgLoaded (len (kept (unicode E) cells)))] /\
    (cells = map lit ["0xAB"; ""; "notHex"; "0x1"]%string ->
     kept (unicode E) cells = map lit ["0xAB"; "0x1"]%string /\
     row_warnings (unicode E) cells 2 =
       [Log WARNING (MsgEmptyAddress 3);
        Log WARNING (MsgInvalidAddress 4 (lit "notHex"))]).
Proof.
  intros Hopen Hcells Hw.
  destruct (cells_read_all column rows cells Hcells) as [Hread Hbroken].
  pose proof (read_csv_run E csv_file column w) as Hrun. cbv zeta in Hrun.
  rewrite Hopen in Hrun. cbn [source_error source_cells] in Hrun.
  rewrite Hbroken, Hread in Hrun.
  eexists. split; [exact Hrun|]. split.
  - rewrite trace_after, heard_audible; trivial.
    now rewrite forallb_app, row_warnings_above_debug.
  - intros ->. split; reflexivity.
Qed.

Lemma read_csv_keeps_valid_rows_witness :
  exists w',
    read_csv (Sample.world_of Sample.four_rows Sample.second_fails)
             (lit "participants.csv") Sample.column initial =
      (Return (map lit ["0xAB"; "0x1"]%string), w') /\
    trace w' = [Log WARNING (MsgEmptyAddress 3);
                Log WARNING (MsgInvalidAddress 4 (lit "notHex"));
                Log INFO (MsgLoaded 2)].
Proof.
  destruct (read_csv_keeps_valid_rows
              (Sample.world_of Sample.four_rows Sample.second_fails)
              (lit "participants.csv") Sample.column Sample.four_rows
              (map lit ["0xAB"; ""; "notHex"; "0x1"]%string) initial
              eq_refl eq_refl (or_introl eq_refl))
    as (w' & Hrun & Htrace & _).
  exists w'. split; [exact Hrun | exact Htrace].
Defined.

(** ** The Executor *)

Lemma execute_add_participant_run (E : env) (self : Importer) (batch : list str)
    (w : world) :
  let r := subprocess_run E (spawned w) (command_of self batch) run_timeout in
  execute_add_participant E self batch w =
  (Return (succeeded r), after w (execute_events self batch r) 1).
Proof.
  cbv zeta. unfold execute_add_participant, try_except, execute_events, spawn_of.
  run_logs. unfold bind at 1. rewrite run_subprocess_run, spawned_after, Nat.add_0_r.
  destruct (subprocess_run E (spawned w) (command_of self batch) run_timeout)
    as [rc out err|e]; cbn [succeeded outcome_events].
  - destruct (rc =? 0); run_logs; reflexivity.
  - destruct (is_TimeoutExpired e); run_logs; reflexivity.
Qed.




(** ** The Orchestrator *)

Lemma log_configuration_run (self : Importer) (dry_run : bool) (w : world) :
  log_configuration self dry_run w =
  (Return tt, after w (configuration_events self dry_run) 0).
Proof.
  unfold log_configuration, configuration_events.
  destruct dry_run; run_logs; reflexivity.
Qed.

Lemma log_summary_run (c : counters) (batches addresses : Z) (w : world) :
  log_summary c batches addresses w =
  (Return tt, after w (summary_events c batches addresses) 0).
Proof.
  unfold log_summary, summary_events.
  destruct (0 <? failed_batches c); run_logs; reflexivity.
Qed.

(** One turn of the loop of a dry run. *)
Lemma process_batch_dry (E : env) (self : Importer) (total i : Z)
    (batch : list str) (c : counters) (w : world) :
  process_batch E self true total (i, batch) c w =
  (Return (count_success c batch), after w (dry_batch_events total (i, batch)) 0).
Proof. unfold process_batch, dry_batch_events. run_logs. reflexivity. Qed.

(** The loop of a dry run. *)
Lemma dry_loop (E : env) (self : Importer) (total : Z) (batches : list (list str)) :
  forall (i : Z) (c : counters) (w : world),
    for_each (enumerate batches i) (process_batch E self true total) c w =
    (Return (fold_left count_success batches c),
     after w (List.concat (map (dry_batch_events total) (enumerate batches i))) 0).
Proof.
  induction batches as [|b batches IH]; intros i c w.
  - cbn. now rewrite after_nothing.
  - cbn [enumerate for_each map List.concat fold_left]. unfold bind at 1.
    rewrite process_batch_dry, IH, after_after. reflexivity.
Qed.

Lemma fold_count_success (batches : list (list str)) :
  forall c : counters,
    fold_left count_success batches c =
    {| successful_batches := successful_batches c + len batches;
       failed_batches := failed_batches c;
       total_processed := total_processed c + len (List.concat batches) |}.
Proof.
  induction batches as [|b batches IH]; intros c.
  - cbn. destruct c. cbn. f_equal; lia.
  - cbn [fold_left List.concat]. rewrite IH. unfold count_success. cbn.
    unfold len. rewrite length_app. cbn [List.length]. f_equal; lia.
Qed.

Lemma effects_dry_events (total : Z) (items : list (Z * list str)) :
  effects (List.concat (map (dry_batch_events total) items)) = [].
Proof.
  induction items as [|item items IH]; [reflexivity|]. cbn. exact IH.
Qed.

Lemma effects_row_warnings (db : unicode_db) (cells : list str) :
  forall k, effects (row_warnings db cells k) = [].
Proof.
  induction cells as [|c cells IH]; intros k; [reflexivity|].
  rewrite row_warnings_cons, effects_app, IH, app_nil_r. unfold row_warning.
  destruct (is_empty (strip db c)); [reflexivity|].
  now destruct (is_valid db (strip db c)).
Qed.

Lemma effects_execute_events (self : Importer) (batch : list str) (r : run_result) :
  effects (execute_events self batch r) = [spawn_of self batch].
Proof.
  unfold execute_events. rewrite effects_app.
  replace (effects (outcome_events (len batch) r)) with (@nil event);
    [reflexivity|].
  destruct r as [rc out err|e]; cbn; [now destruct (rc =? 0)|reflexivity].
Qed.



Lemma read_csv_run' (E : env) (csv_file column : str) (w : world) :
  read_csv E csv_file column w =
  (match source_error column (open_csv E csv_file) with
   | Some _ => SysExit 1
   | None => Return (addresses_of E csv_file column)
   end, after w (reading_events E csv_file column) 0).
Proof.
  pose proof (read_csv_run E csv_file column w) as H. cbv zeta in H.
  rewrite H. unfold reading_events, addresses_of.
  now destruct (source_error column (open_csv E csv_file)).
Qed.

Lemma import_participants_run (E : env) (self : Importer) (csv_file column : str)
    (dry_run : bool) (w : world) :
  let addresses := addresses_of E csv_file column in
  let batches := batches_of (batch_size self) addresses in
  let pre := configuration_events self dry_run ++ reading_events E csv_file column in
  import_participants E self csv_file column dry_run w =
  match source_error column (open_csv E csv_file) with
  | Some _ => (SysExit 1, after w pre 0)
  | None =>
      if is_empty addresses
      then (Return tt, after w (pre ++ [Log ERROR MsgNoValidAddress]) 0)
      else if batch_size self =? 0 then (Raise ValueError, after w pre 0)
      else
        bind (for_each (enumerate batches 1)
                       (process_batch E self dry_run (len batches)) no_batches)
             (fun c => log_summary c (len batches) (len addresses))
             (after w (pre ++ [Log INFO (MsgSplit (len addresses) (len batches)
                                                  (batch_size self))]) 0)
  end.
Proof.
  cbv zeta. unfold import_participants.
  unfold bind at 1. rewrite log_configuration_run.
  unfold bind at 1. rewrite read_csv_run', after_after. cbn [Nat.add].
  destruct (source_error column (open_csv E csv_file)); [reflexivity|].
  destruct (is_empty (addresses_of E csv_file column)).
  - run_logs. reflexivity.
  - destruct (Z.eqb_spec (batch_size self) 0) as [Hz|Hz].
    + unfold bind at 1. now rewrite create_batches_zero.
    + unfold bind at 1. rewrite create_batches_run by trivial. cbv zeta.
      rewrite after_after. reflexivity.
Qed.

Lemma main_run (E : env) (args : Args) :
  main E args initial =
  import_participants E (importer_of args) (arg_csv args) (arg_address_column args)
                      (arg_dry_run args) (start_world args).
Proof.
  unfold main, start_world. now destruct (arg_verbose args).
Qed.

Lemma start_world_audible (args : Args) : audible (start_world args).
Proof. unfold audible, start_world. cbn. destruct (arg_verbose args); auto. Qed.

Lemma trace_after_start (args : Args) (evs : list event) (n : nat) :
  trace (after (start_world args) evs n) =
  heard (log_level (start_world args)) evs.
Proof. reflexivity. Qed.

Lemma effects_configuration (self : Importer) (dry_run : bool) :
  effects (configuration_events self dry_run) = [].
Proof. now destruct dry_run. Qed.

Lemma effects_reading (E : env) (csv_file column : str) :
  effects (reading_events E csv_file column) = [].
Proof.
  unfold reading_events. cbv zeta. rewrite effects_app, effects_row_warnings.
  now destruct (source_error column (open_csv E csv_file)).
Qed.

Lemma effects_summary (c : counters) (batches addresses : Z) :
  effects (summary_events c batches addresses) = [].
Proof. unfold summary_events. now destruct (0 <? failed_batches c). Qed.

Lemma summary_above_debug (c : counters) (batches addresses : Z) :
  forallb above_debug (summary_events c batches addresses) = true.
Proof. unfold summary_events. now destruct (0 <? failed_batches c). Qed.

Lemma effect_in (ev : event) (evs : list event) :
  In ev evs -> is_effect ev = true -> In ev (effects evs).
Proof. intros Hin He. apply filter_In. now split. Qed.

Lemma source_ok (column : str) (src : csv_source) :
  source_fails column src = false -> source_error column src = None.
Proof.
  intros H. destruct (source_error column src) as [e|] eqn:He; [|reflexivity].
  assert (Hf : source_fails column src = true)
    by (apply source_error_fails; rewrite He; discriminate).
  congruence.
Qed.

Lemma run_main_eq (E : env) (args : Args) (o : outcome unit) (w : world) :
  main E args initial = (o, w) -> run_main E args = (exit_status o, trace w).
Proof. intros H. unfold run_main. now rewrite H. Qed.

Lemma is_empty_false {A : Type} (l : list A) : l <> [] -> is_empty l = false.
Proof. now destruct l. Qed.

(** A dry run that finds addresses and has a batch size other than zero. *)
Lemma main_dry (E : env) (args : Args) :
  let self := importer_of args in
  let addresses := addresses_of E (arg_csv args) (arg_address_column args) in
  let batches := batches_of (arg_batch_size args) addresses in
  arg_dry_run args = true ->
  source_fails (arg_address_column args) (open_csv E (arg_csv args)) = false ->
  addresses <> [] ->
  arg_batch_size args <> 0 ->
  main E args initial =
  (Return tt,
   after (start_world args)
     ((configuration_events self true ++
       reading_events E (arg_csv args) (arg_address_column args) ++
       [Log INFO (MsgSplit (len addresses) (len batches) (arg_batch_size args))] ++
       List.concat (map (dry_batch_events (len batches)) (enumerate batches 1))) ++
      summary_events (fold_left count_success batches no_batches)
                     (len batches) (len addresses)) 0).
Proof.
  intros self addresses batches Hdry Hsrc Hne Hbs.
  rewrite main_run, import_participants_run. cbv zeta.
  rewrite (source_ok _ _ Hsrc), Hdry.
  fold addresses. rewrite (is_empty_false _ Hne).
  cbn [importer_of batch_size].
  destruct (Z.eqb_spec (arg_batch_size args) 0); [contradiction|].
  unfold bind. fold batches. rewrite dry_loop, log_summary_run, !after_after.
  cbn [Nat.add]. rewrite <- !app_assoc. reflexivity.
Qed.

(** A dry run has no effect besides logging. *)
Lemma main_dry_effects (E : env) (args : Args) :
  arg_dry_run args = true -> effects (snd (run_main E args)) = [].
Proof.
  intros Hdry. unfold run_main. rewrite main_run, import_participants_run.
  cbv zeta. rewrite Hdry.
  assert (Hpre : forall evs n, effects evs = [] ->
            effects (trace (after (start_world args)
              ((configuration_events (importer_of args) true ++
                reading_events E (arg_csv args) (arg_address_column args)) ++ evs) n))
            = []).
  { intros evs n Hevs.
    rewrite trace_after_start, effects_heard, !effects_app.
    now rewrite effects_configuration, effects_reading, Hevs. }
  destruct (source_error (arg_address_column args) (open_csv E (arg_csv args))).
  { cbn [snd]. rewrite <- (app_nil_r (_ ++ _)). now apply Hpre. }
  destruct (is_empty (addresses_of E (arg_csv args) (arg_address_column args))).
  { cbn [snd]. now apply Hpre. }
  destruct (batch_size (importer_of args) =? 0).
  { cbn [snd]. rewrite <- (app_nil_r (_ ++ _)). now apply Hpre. }
  unfold bind. rewrite dry_loop, log_summary_run, !after_after.
  cbn [snd]. rewrite <- app_assoc. apply Hpre.
  rewrite !effects_app, effects_dry_events, effects_summary. reflexivity.
Qed.

(** C5. In a dry run [execute_add_participant] starts no subprocess; when
    the run reaches the batches, the summary counts every batch as succeeded,
    all their addresses as processed, and no batch as failed. *)
Theorem dry_run_never_executes (E : env) (args : Args) :
  arg_dry_run args = true ->
  (forall cmd timeout, ~ In (Spawn cmd timeout) (snd (run_main E args))) /\
  (let addresses := addresses_of E (arg_csv args) (arg_address_column args) in
   let batches := batches_of (arg_batch_size args) addresses in
   source_fails (arg_address_column args) (open_csv E (arg_csv args)) = false ->
   addresses <> [] ->
   arg_batch_size args <> 0 ->
   fst (run_main E args) = 0 /\
   exists before,
     snd (run_main E args) =
     before ++
     [Log INFO MsgSummaryHeader;
      Log INFO (MsgSucceededBatches (len batches) (len batches));
      Log INFO (MsgFailedBatches 0 (len batches));
      Log INFO (MsgProcessed (len (List.concat batches)) (len addresses));
      Log INFO MsgAllSucceeded]).
Proof.
  intros Hdry. split.
  - intros cmd timeout Hin.
    apply effect_in in Hin; [|reflexivity].
    now rewrite main_dry_effects in Hin.
  - intros addresses batches Hsrc Hne Hbs.
    rewrite (run_main_eq _ _ _ _ (main_dry E args Hdry Hsrc Hne Hbs)).
    split; [reflexivity|]. cbn [snd].
    rewrite trace_after_start, heard_app.
    rewrite (heard_audible _ (summary_events _ _ _));
      [| apply start_world_audible | apply summary_above_debug].
    eexists. f_equal.
    rewrite fold_count_success. unfold summary_events. cbn. reflexivity.
Qed.

Lemma dry_run_never_executes_witness :
  (forall cmd timeout,
     ~ In (Spawn cmd timeout)
          (snd (run_main (Sample.world_of Sample.three_rows Sample.second_fails)
                         (Sample.args_of 1 true)))) /\
  fst (run_main (Sample.world_of Sample.three_rows Sample.second_fails)
                (Sample.args_of 1 true)) = 0.
Proof.
  destruct (dry_run_never_executes
              (Sample.world_of Sample.three_rows Sample.second_fails)
              (Sample.args_of 1 true) eq_refl) as [Hno Hsum].
  split; [exact Hno|].
  apply Hsum; [reflexivity | discriminate | discriminate].
Defined.

Lemma batches_of_nil (size : Z) : batches_of size [] = [].
Proof.
  unfold batches_of, range_len, len. cbn [List.length Z.of_nat].
  destruct (0 <? size); reflexivity.
Qed.





Lemma heard_in (th : level) (ev : event) (evs : list event) :
  In ev evs -> passes th ev = true -> In ev (heard th evs).
Proof. intros Hin Hp. apply filter_In. now split. Qed.




(** A negative delay ends a live run at its first pause: [time.sleep] raises
    [ValueError] after the first batch and nobody catches it. *)
Example negative_delay_aborts :
  let E := Sample.world_of Sample.three_rows Sample.second_fails in
  let args := {| arg_csv := lit "participants.csv";
                 arg_lottery := 1;
                 arg_contract_address := lit "0x123";
                 arg_address_column := Sample.column;
                 arg_batch_size := 1;
                 arg_delay := Finite (-1);
                 arg_dry_run := false;
                 arg_verbose := false |} in
  fst (main E args initial) = Raise ValueError /\
  effects (snd (run_main E args)) = [spawn_of (importer_of args) [lit "0xA1"]].
Proof. vm_compute. split; reflexivity. Qed.




Lemma configuration_above_debug (self : Importer) (dry_run : bool) :
  forallb above_debug (configuration_events self dry_run) = true.
Proof. now destruct dry_run. Qed.

Lemma reading_above_debug (E : env) (csv_file column : str) :
  forallb above_debug (reading_events E csv_file column) = true.
Proof.
  unfold reading_events. cbv zeta.
  rewrite forallb_app, row_warnings_above_debug.
  now destruct (source_error column (open_csv E csv_file)).
Qed.

(** C10. A batch size of zero makes [create_batches] raise [ValueError]; a
    negative one makes it return no batch at all, logging only the count of
    batches. [main] hands either size over unchecked: the run with size zero
    ends in the uncaught [ValueError], the run with a negative size submits
    nothing and reports success with no address processed. *)
Theorem nonpositive_batch_size_unchecked (E : env) (args : Args) (self : Importer)
    (addresses : list str) (w : world) :
  batch_size self <= 0 ->
  addresses <> [] ->
  arg_batch_size args <= 0 ->
  source_fails (arg_address_column args) (open_csv E (arg_csv args)) = false ->
  addresses_of E (arg_csv args) (arg_address_column args) = addresses ->
  (batch_size self = 0 ->
   create_batches self addresses w = (Raise ValueError, w)) /\
  (batch_size self < 0 ->
   create_batches self addresses w =
   (Return [],
    after w [Log INFO (MsgSplit (len addresses) 0 (batch_size self))] 0)) /\
  (arg_batch_size args = 0 ->
   fst (main E args initial) = Raise ValueError /\ fst (run_main E args) = 1) /\
  (arg_batch_size args < 0 ->
   fst (run_main E args) = 0 /\
   snd (run_main E args) =
     configuration_events (importer_of args) (arg_dry_run args) ++
     reading_events E (arg_csv args) (arg_address_column args) ++
     [Log INFO (MsgSplit (len addresses) 0 (arg_batch_size args));
      Log INFO MsgSummaryHeader;
      Log INFO (MsgSucceededBatches 0 0);
      Log INFO (MsgFailedBatches 0 0);
      Log INFO (MsgProcessed 0 (len addresses));
      Log INFO MsgAllSucceeded]).
Proof.
  intros Hself Hne Hargs Hsrc Haddr. split; [|split; [|split]].
  - apply create_batches_zero.
  - intros Hneg. rewrite create_batches_run by lia. cbv zeta.
    rewrite batches_of_negative by lia. reflexivity.
  - intros Hz. unfold run_main. rewrite main_run, import_participants_run.
    cbv zeta. rewrite (source_ok _ _ Hsrc), Haddr, (is_empty_false _ Hne).
    cbn [importer_of batch_size]. rewrite Hz. split; reflexivity.
  - intros Hneg. unfold run_main. rewrite main_run, import_participants_run.
    cbv zeta. rewrite (source_ok _ _ Hsrc), Haddr, (is_empty_false _ Hne).
    cbn [importer_of batch_size].
    destruct (Z.eqb_spec (arg_batch_size args) 0); [lia|].
    rewrite batches_of_negative by lia. cbn [enumerate for_each].
    unfold bind, ret. rewrite log_summary_run, after_after.
    split; [reflexivity|]. cbn [snd]. rewrite trace_after_start.
    rewrite heard_audible; [| apply start_world_audible |].
    + rewrite <- !app_assoc. reflexivity.
    + rewrite !forallb_app, configuration_above_debug, reading_above_debug.
      reflexivity.
Qed.

Lemma nonpositive_batch_size_unchecked_witness :
  let E := Sample.world_of Sample.three_rows Sample.second_fails in
  let addresses := map lit ["0xA1"; "0xB2"; "0xC3"]%string in
  create_batches (Sample.importer 0) addresses initial = (Raise ValueError, initial) /\
  fst (run_main E (Sample.args_of (-5) false)) = 0 /\
  snd (run_main E (Sample.args_of (-5) false)) =
    configuration_events (Sample.importer (-5)) false ++
    [Log INFO (MsgLoaded 3);
     Log INFO (MsgSplit 3 0 (-5));
     Log INFO MsgSummaryHeader;
     Log INFO (MsgSucceededBatches 0 0);
     Log INFO (MsgFailedBatches 0 0);
     Log INFO (MsgProcessed 0 3);
     Log INFO MsgAllSucceeded].
Proof.
  destruct (nonpositive_batch_size_unchecked
              (Sample.world_of Sample.three_rows Sample.second_fails)
              (Sample.args_of (-5) false) (Sample.importer 0)
              (map lit ["0xA1"; "0xB2"; "0xC3"]%string) initial)
    as (Hzero & _ & _ & Hneg).
  - discriminate.
  - discriminate.
  - discriminate.
  - reflexivity.
  - reflexivity.
  - split; [apply Hzero; reflexivity|]. apply Hneg. reflexivity.
Defined.

(** ** Further properties of the Validator *)

Lemma startswith_0x (s : str) :
  startswith s (lit "0x") = true -> exists h, s = lit "0x" ++ h.
Proof.
  unfold startswith.
  destruct (list_eq_dec N.eq_dec _ _) as [Heq|]; [|discriminate].
  intros _. destruct s as [|a [|b h]]; try discriminate.
  cbn in Heq. injection Heq as Ha Hb. subst a b. now exists h.
Qed.

(** X1. Every text made of [0x] and one or more hexadecimal digits, in
    either case, is accepted by [validate_address]. *)
Theorem hex_addresses_are_accepted (db : unicode_db) (h : str) :
  h <> [] ->
  forallb is_hex_digit h = true ->
  validate_address db (lit "0x" ++ h) = Return true.
Proof.
  intros Hne Hh. apply validate_address_accepts.
  cbn. destruct h; [contradiction|]. exact Hh.
Qed.

Lemma hex_addresses_are_accepted_witness :
  validate_address Sample.db (lit "0x" ++ lit "00aBcDeF19") = Return true.
Proof.
  apply hex_addresses_are_accepted; [discriminate | reflexivity].
Defined.

Lemma is_valid_prefix (db : unicode_db) (s : str) :
  is_valid db s = true -> exists h, s = lit "0x" ++ h /\ h <> [].
Proof.
  unfold is_valid, validate_address.
  destruct (startswith s (lit "0x")) eqn:Hp; cbn [negb]; [|discriminate].
  apply startswith_0x in Hp as [h ->]. cbn [lit app]. rewrite slice_tail.
  destruct h as [|c h]; cbn [is_empty]; [discriminate|].
  intros _. exists (c :: h). split; [reflexivity|discriminate].
Qed.

(** X2. [validate_address] never raises, and what it accepts starts with
    the lower-case prefix [0x] and goes on after it. *)
Theorem validate_address_needs_prefix (db : unicode_db) (s : str) :
  exists b,
    validate_address db s = Return b /\
    (b = true -> exists h, s = lit "0x" ++ h /\ h <> []).
Proof.
  exists (is_valid db s). split; [apply validate_address_returns|].
  apply is_valid_prefix.
Qed.

(** ** Further properties of the Batcher *)

Lemma range_len_count (n size : Z) :
  0 <= n -> 0 < size -> range_len 0 n size = batch_count n size.
Proof.
  intros Hn Hs. unfold range_len, batch_count.
  destruct (Z.ltb_spec 0 size); [|lia].
  destruct (Z.ltb_spec 0 n).
  - replace (n + size - 1) with ((n - 0 - 1) + 1 * size) by lia.
    now rewrite Z.div_add by lia.
  - replace n with 0 by lia. rewrite Z.div_small by lia. reflexivity.
Qed.

Lemma range_from_length (start step : Z) (n : nat) :
  List.length (range_from start step n) = n.
Proof.
  revert start. induction n as [|n IH]; intros start; cbn; [reflexivity|].
  now rewrite IH.
Qed.

Lemma batches_of_count (size : Z) (addresses : list str) :
  0 < size -> len (batches_of size addresses) = batch_count (len addresses) size.
Proof.
  intros Hs. unfold batches_of, len at 1.
  rewrite length_map, range_from_length.
  assert (Hn : 0 <= len addresses) by (unfold len; lia).
  rewrite range_len_count by trivial.
  assert (0 <= batch_count (len addresses) size).
  { unfold batch_count. apply Z.div_pos; lia. }
  lia.
Qed.

(** X3. For a positive batch size [create_batches] returns the number of
    addresses divided by the batch size, rounded up, many batches; from no
    address it makes no batch. *)
Theorem create_batches_count (self : Importer) (addresses : list str) (w : world) :
  0 < batch_size self ->
  exists batches w',
    create_batches self addresses w = (Return batches, w') /\
    len batches = (len addresses + batch_size self - 1) / batch_size self /\
    (addresses = [] -> batches = []).
Proof.
  intros Hs. eexists _, _. split; [apply create_batches_run; lia|]. split.
  - now apply batches_of_count.
  - intros ->. apply batches_of_nil.
Qed.

Lemma create_batches_count_witness :
  exists batches w',
    create_batches (Sample.importer 3) (repeat (lit "0x1") 10) initial
    = (Return batches, w') /\
    len batches = 4.
Proof.
  destruct (create_batches_count (Sample.importer 3) (repeat (lit "0x1") 10)
              initial eq_refl) as (batches & w' & Hrun & Hcount & _).
  exists batches, w'. split; [exact Hrun | exact Hcount].
Defined.

(** ** Further properties of the Reader *)

Lemma cells_read_app (column : str) (good later : list row) (cells : list str) :
  map (cell_of column) good = map Some cells ->
  cells_read column (good ++ later) = cells ++ cells_read column later /\
  existsb (broken_row column) (good ++ later) = existsb (broken_row column) later.
Proof.
  revert cells. induction good as [|r good IH]; intros [|c cells] H;
    try discriminate; [now split|].
  cbn in H. injection H as Hr Hrows. destruct (IH cells Hrows) as [IH1 IH2].
  cbn [app cells_read existsb]. unfold broken_row at 1.
  rewrite Hr, IH1, IH2. now split.
Qed.

(** X4. When opening the CSV file raises, the run logs the configuration
    and one error, the file-not-found message for [FileNotFoundError] and the
    read-error message otherwise, and the process ends with status 1: nothing
    is submitted and no summary is logged. *)
Theorem unopened_source_ends_run (E : env) (args : Args) (e : exn) :
  open_csv E (arg_csv args) = OpenRaises e ->
  run_main E args =
  (1, configuration_events (importer_of args) (arg_dry_run args) ++
      [Log ERROR (if is_FileNotFoundError e then MsgCsvNotFound (arg_csv args)
                  else MsgCsvReadError e)]).
Proof.
  intros Hopen. unfold run_main. rewrite main_run, import_participants_run.
  cbv zeta. unfold reading_events. rewrite Hopen.
  cbn [source_error source_cells fst snd exit_status]. f_equal.
  rewrite trace_after_start, heard_audible; [reflexivity | apply start_world_audible |].
  rewrite forallb_app, configuration_above_debug. reflexivity.
Qed.

Lemma unopened_source_ends_run_witness :
  run_main Cases.missing_file (Sample.args_of 1000 false) =
  (1, configuration_events (Sample.importer 1000) false ++
      [Log ERROR (MsgCsvNotFound (lit "participants.csv"))]).
Proof.
  apply (unopened_source_ends_run Cases.missing_file (Sample.args_of 1000 false)
           FileNotFoundError).
  reflexivity.
Defined.

(** X5. When reading stops in the middle of the file, at a row that has no
    cell under the column ([AttributeError]) or at an exception of the
    reader, [read_csv] has logged the warnings of the rows before, logs the
    read error and exits with status 1: the addresses read so far are
    dropped and the rows after are not looked at. *)
Theorem read_csv_stops_at_failure (E : env) (csv_file column : str)
    (good later : list row) (cells : list str) (stop : option exn) (e : exn)
    (w : world) :
  open_csv E csv_file = Opened (good ++ later) stop ->
  map (cell_of column) good = map Some cells ->
  (exists r rest, later = r :: rest /\ cell_of column r = None /\ e = AttributeError)
  \/ (later = [] /\ stop = Some e) ->
  read_csv E csv_file column w =
  (SysExit 1,
   after w (row_warnings (unicode E) cells 2 ++ [read_error csv_file e]) 0).
Proof.
  intros Hopen Hgood Hlater.
  pose proof (read_csv_run E csv_file column w) as Hrun. cbv zeta in Hrun.
  rewrite Hopen in Hrun. cbn [source_error source_cells] in Hrun.
  destruct (cells_read_app column good later cells Hgood) as [Hcells Hbroken].
  rewrite Hcells, Hbroken in Hrun.
  destruct Hlater as [(r & rest & -> & Hr & ->) | [-> ->]].
  - cbn [existsb cells_read] in Hrun. unfold broken_row at 1 in Hrun.
    rewrite Hr in Hrun. cbn [orb] in Hrun. now rewrite app_nil_r in Hrun.
  - cbn [existsb cells_read] in Hrun. now rewrite app_nil_r in Hrun.
Qed.

Lemma read_csv_stops_at_failure_witness :
  read_csv (Sample.world_of
              (map Sample.csv_row ["0xA1"; "oops"]%string ++
               Cases.short_row :: map Sample.csv_row ["0xB2"]%string)
              Sample.second_fails)
           (lit "participants.csv") Sample.column initial =
  (SysExit 1,
   after initial [Log WARNING (MsgInvalidAddress 3 (lit "oops"));
                  Log ERROR (MsgCsvReadError AttributeError)] 0).
Proof.
  apply (read_csv_stops_at_failure _ _ _
           (map Sample.csv_row ["0xA1"; "oops"]%string)
           (Cases.short_row :: map Sample.csv_row ["0xB2"]%string)
           (map lit ["0xA1"; "oops"]%string) None AttributeError).
  - reflexivity.
  - reflexivity.
  - left. exists Cases.short_row, (map Sample.csv_row ["0xB2"]%string).
    repeat split.
Defined.

Lemma dict_get_absent (r : row) (key : str) (default : option str) :
  ~ In key (map fst r) -> dict_get r key default = default.
Proof.
  intros Hno. unfold dict_get.
  destruct (find (fun kv => str_eqb (fst kv) key) r) as [[k v]|] eqn:Hf;
    [|reflexivity].
  apply find_some in Hf as [Hin Hk]. exfalso. apply Hno.
  unfold str_eqb in Hk. cbn [fst] in Hk.
  destruct (list_eq_dec N.eq_dec k key) as [->|]; [|discriminate].
  apply (in_map fst) in Hin. exact Hin.
Qed.

Lemma empty_cells_warnings (db : unicode_db) (n : nat) :
  forall k,
    row_warnings db (repeat [] n) k =
    map (fun i => Log WARNING (MsgEmptyAddress i)) (range_from k 1 n) /\
    kept db (repeat [] n) = [].
Proof.
  induction n as [|n IH]; intros k; [now split|].
  cbn [repeat]. rewrite row_warnings_cons, kept_cons.
  destruct (IH (k + 1)) as [-> ->]. now split.
Qed.

Lemma absent_cells (column : str) (rows : list row) :
  Forall (fun r => ~ In column (map fst r)) rows ->
  map (cell_of column) rows = map Some (repeat [] (List.length rows)).
Proof.
  induction 1 as [|r rows Hr _ IH]; [reflexivity|].
  cbn [map List.length repeat]. unfold cell_of at 1.
  rewrite dict_get_absent by trivial. now f_equal.
Qed.

(** X6. When no row has the address column, [read_csv] treats every row as
    empty: it returns no address and logs one empty-address warning per row,
    numbered from 2 as the lines of the file are. *)
Theorem read_csv_without_column (E : env) (csv_file column : str)
    (rows : list row) (w : world) :
  open_csv E csv_file = Opened rows None ->
  Forall (fun r => ~ In column (map fst r)) rows ->
  audible w ->
  exists w',
    read_csv E csv_file column w = (Return [], w') /\
    trace w' =
      trace w ++
      map (fun i => Log WARNING (MsgEmptyAddress i))
          (range_from 2 1 (List.length rows)) ++
      [Log INFO (MsgLoaded 0)].
Proof.
  intros Hopen Hrows Hw.
  pose proof (absent_cells column rows Hrows) as Hcells.
  destruct (cells_read_all column rows _ Hcells) as [Hread Hbroken].
  pose proof (read_csv_run E csv_file column w) as Hrun. cbv zeta in Hrun.
  rewrite Hopen in Hrun. cbn [source_error source_cells] in Hrun.
  rewrite Hbroken, Hread in Hrun.
  destruct (empty_cells_warnings (unicode E) (List.length rows) 2) as [Hwarn Hkept].
  rewrite Hwarn, Hkept in Hrun.
  eexists. split; [exact Hrun|].
  rewrite trace_after, heard_audible; trivial.
  rewrite forallb_app, andb_true_r. apply forallb_forall.
  intros ev Hin. apply in_map_iff in Hin as (i & <- & _). reflexivity.
Qed.

Lemma read_csv_without_column_witness :
  exists w',
    read_csv (Sample.world_of (map Cases.other_row ["ann"; "bob"]%string)
                              Sample.second_fails)
             (lit "participants.csv") Sample.column initial = (Return [], w') /\
    trace w' = [Log WARNING (MsgEmptyAddress 2);
                Log WARNING (MsgEmptyAddress 3);
                Log INFO (MsgLoaded 0)].
Proof.
  apply (read_csv_without_column
           (Sample.world_of (map Cases.other_row ["ann"; "bob"]%string)
                            Sample.second_fails)
           (lit "participants.csv") Sample.column
           (map Cases.other_row ["ann"; "bob"]%string) initial).
  - reflexivity.
  - repeat constructor; cbn; intros [H|[H|[]]]; discriminate.
  - now left.
Defined.

Lemma lstrip_head (db : unicode_db) (s : str) (c : codepoint) (r : str) :
  lstrip db s = c :: r -> Py_UNICODE_ISSPACE db c = false.
Proof.
  induction s as [|a s IH]; cbn; [discriminate|].
  destruct (Py_UNICODE_ISSPACE db a) eqn:Ha; [exact IH|].
  intros H. injection H as -> _. exact Ha.
Qed.

Lemma lstrip_fixed (db : unicode_db) (s : str) :
  (forall c r, s = c :: r -> Py_UNICODE_ISSPACE db c = false) -> lstrip db s = s.
Proof.
  destruct s as [|a s]; [reflexivity|]. intros H. cbn.
  now rewrite (H a s eq_refl).
Qed.

Lemma lstrip_idempotent (db : unicode_db) (s : str) :
  lstrip db (lstrip db s) = lstrip db s.
Proof.
  apply lstrip_fixed. intros c r. apply lstrip_head.
Qed.

Lemma lstrip_suffix (db : unicode_db) (s : str) :
  exists spaces, s = spaces ++ lstrip db s.
Proof.
  induction s as [|a s [spaces IH]]; [now exists []|]. cbn.
  destruct (Py_UNICODE_ISSPACE db a).
  - exists (a :: spaces). cbn. now f_equal.
  - now exists [].
Qed.

(** Trimming a trimmed text changes nothing. *)
Lemma strip_idempotent (db : unicode_db) (s : str) :
  strip db (strip db s) = strip db s.
Proof.
  unfold strip.
  set (t := lstrip db s). set (u := lstrip db (rev t)).
  assert (Hfront : lstrip db (rev u) = rev u).
  { apply lstrip_fixed. intros c r Hc.
    destruct (lstrip_suffix db (rev t)) as [spaces Hsp]. fold u in Hsp.
    apply (f_equal (@rev codepoint)) in Hsp.
    rewrite rev_involutive, rev_app_distr, Hc in Hsp.
    apply (lstrip_head db s c (r ++ rev spaces)). exact Hsp. }
  rewrite Hfront, rev_involutive. unfold u. now rewrite lstrip_idempotent.
Qed.

(** X7. Every address [read_csv] returns passes [validate_address], starts
    with [0x] followed by something, and has no white space left around it. *)
Theorem read_csv_returns_valid_addresses (E : env) (csv_file column : str)
    (w w' : world) (addresses : list str) :
  read_csv E csv_file column w = (Return addresses, w') ->
  Forall (fun a => validate_address (unicode E) a = Return true /\
                   strip (unicode E) a = a /\
                   exists h, a = lit "0x" ++ h /\ h <> []) addresses.
Proof.
  intros Hrun. rewrite read_csv_run' in Hrun.
  destruct (source_error column (open_csv E csv_file)); [discriminate|].
  injection Hrun as <- _. unfold addresses_of, kept.
  apply Forall_forall. intros a Ha.
  apply filter_In in Ha as [Ha Hvalid].
  apply filter_In in Ha as [Ha _].
  apply in_map_iff in Ha as (cell & <- & _).
  split; [|split].
  - now rewrite validate_address_returns, Hvalid.
  - apply strip_idempotent.
  - now apply is_valid_prefix in Hvalid.
Qed.

Lemma read_csv_returns_valid_addresses_witness :
  Forall (fun a => validate_address Sample.db a = Return true /\
                   strip Sample.db a = a /\
                   exists h, a = lit "0x" ++ h /\ h <> [])
         (map lit ["0xAB"; "0x1"]%string).
Proof.
  apply (read_csv_returns_valid_addresses
           (Sample.world_of Sample.four_rows Sample.second_fails)
           (lit "participants.csv") Sample.column initial
           (after initial [Log WARNING (MsgEmptyAddress 3);
                           Log WARNING (MsgInvalidAddress 4 (lit "notHex"));
                           Log INFO (MsgLoaded 2)] 0)).
  reflexivity.
Defined.

Lemma kept_or_warned_row (db : unicode_db) (c : str) (k : Z) :
  (List.length (kept db [c]) + List.length (row_warning db (k, c)) = 1)%nat /\
  warnings_in (row_warning db (k, c)) = row_warning db (k, c).
Proof.
  unfold kept, row_warning, warnings_in. cbn [map filter].
  destruct (is_empty (strip db c)); cbn [negb filter]; [now split|].
  destruct (is_valid db (strip db c)); now split.
Qed.

Lemma kept_or_warned (db : unicode_db) (cells : list str) :
  forall k,
    (List.length (kept db cells) + List.length (row_warnings db cells k)
     = List.length cells)%nat /\
    warnings_in (row_warnings db cells k) = row_warnings db cells k.
Proof.
  induction cells as [|c cells IH]; intros k; [now split|].
  rewrite kept_cons, row_warnings_cons, !length_app.
  destruct (IH (k + 1)) as [IHlen IHwarn].
  destruct (kept_or_warned_row db c k) as [Hlen Hwarn].
  split.
  - cbn [List.length]. lia.
  - unfold warnings_in in *. now rewrite filter_app, IHwarn, Hwarn.
Qed.

(** X8. Reading a file in which every row has the cell accounts for every
    row: the addresses returned and the warnings logged are together as many
    as the rows. *)
Theorem read_csv_accounts_for_rows (E : env) (csv_file column : str)
    (rows : list row) (cells : list str) (w : world) :
  open_csv E csv_file = Opened rows None ->
  map (cell_of column) rows = map Some cells ->
  audible w ->
  exists addresses w' logged,
    read_csv E csv_file column w = (Return addresses, w') /\
    trace w' = trace w ++ logged /\
    len addresses + len (warnings_in logged) = len rows.
Proof.
  intros Hopen Hcells Hw.
  destruct (cells_read_all column rows cells Hcells) as [Hread Hbroken].
  pose proof (read_csv_run E csv_file column w) as Hrun. cbv zeta in Hrun.
  rewrite Hopen in Hrun. cbn [source_error source_cells] in Hrun.
  rewrite Hbroken, Hread in Hrun.
  eexists _, _, _. split; [exact Hrun|]. split.
  - rewrite trace_after, heard_audible; [reflexivity | trivial |].
    now rewrite forallb_app, row_warnings_above_debug.
  - destruct (kept_or_warned (unicode E) cells 2) as [Hlen Hwarn].
    unfold warnings_in in *. rewrite filter_app, Hwarn. cbn [filter].
    rewrite app_nil_r.
    assert (Hrows : List.length rows = List.length cells).
    { apply (f_equal (@List.length _)) in Hcells. now rewrite !length_map in Hcells. }
    unfold len. lia.
Qed.

Lemma read_csv_accounts_for_rows_witness :
  exists addresses w' logged,
    read_csv (Sample.world_of Sample.four_rows Sample.second_fails)
             (lit "participants.csv") Sample.column initial
    = (Return addresses, w') /\
    trace w' = trace initial ++ logged /\
    len addresses + len (warnings_in logged) = 4.
Proof.
  apply (read_csv_accounts_for_rows
           (Sample.world_of Sample.four_rows Sample.second_fails)
           (lit "participants.csv") Sample.column Sample.four_rows
           (map lit ["0xAB"; ""; "notHex"; "0x1"]%string) initial).
  - reflexivity.
  - reflexivity.
  - now left.
Defined.

(** ** Further properties of the Executor *)

Lemma succeeded_iff (r : run_result) :
  succeeded r = true <-> exists out err, r = Completed 0 out err.
Proof.
  destruct r as [rc out err|e]; cbn.
  - split.
    + intros H. apply Z.eqb_eq in H. subst rc. eauto.
    + intros (out' & err' & H). injection H as -> _ _. reflexivity.
  - split; [discriminate|]. intros (out & err & H). discriminate.
Qed.

(** X9. [execute_add_participant] never raises. It calls [subprocess.run]
    exactly once, with the whole batch in one command and the timeout 120,
    and returns [True] exactly when the command completes with status 0; for
    another status it logs the captured output and error streams. *)
Theorem execute_add_participant_contract (E : env) (self : Importer)
    (batch : list str) (w : world) :
  exists (b : bool) (w' : world) (logged : list event),
    execute_add_participant E self batch w = (Return b, w') /\
    (b = true <->
     exists out err,
       subprocess_run E (spawned w) (command_of self batch) 120
       = Completed 0 out err) /\
    trace w' = trace w ++ logged /\
    effects logged = [Spawn (command_of self batch) 120] /\
    arg_addresses (command_of self batch) = batch /\
    spawned w' = S (spawned w) /\
    (forall rc out err,
       subprocess_run E (spawned w) (command_of self batch) 120
       = Completed rc out err ->
       rc <> 0 ->
       In (Log ERROR (MsgStdout out)) logged /\
       In (Log ERROR (MsgStderr err)) logged).
Proof.
  pose proof (execute_add_participant_run E self batch w) as Hrun.
  cbv zeta in Hrun. unfold run_timeout in Hrun.
  set (r := subprocess_run E (spawned w) (command_of self batch) 120) in *.
  eexists _, _, _. split; [exact Hrun|].
  split; [apply succeeded_iff|].
  split; [apply trace_after|].
  split; [now rewrite effects_heard, effects_execute_events|].
  split; [reflexivity|].
  split; [rewrite spawned_after; apply Nat.add_1_r|].
  intros rc out err Hr Hrc. rewrite Hr.
  assert (Hrc0 : (rc =? 0) = false) by now apply Z.eqb_neq.
  unfold execute_events. cbn [outcome_events]. rewrite Hrc0.
  split; (apply heard_in; [|now destruct (log_level w)]);
    apply in_or_app; right; cbn; auto.
Qed.

(** ** Further properties of the Orchestrator *)






Lemma submitted_app (a b : list event) :
  submitted (a ++ b) = submitted a ++ submitted b.
Proof. apply flat_map_app. Qed.






(** X13. When the source is read and holds no valid address, the run logs
    the error that none was found and returns: whatever the mode, the batch
    size and the delay are, it makes no batch, submits nothing, logs no
    summary and the process ends with status 0. *)
Theorem no_valid_address_ends_run (E : env) (args : Args) :
  source_fails (arg_address_column args) (open_csv E (arg_csv args)) = false ->
  addresses_of E (arg_csv args) (arg_address_column args) = [] ->
  run_main E args =
  (0, configuration_events (importer_of args) (arg_dry_run args) ++
      row_warnings (unicode E)
        (source_cells (arg_address_column args) (open_csv E (arg_csv args))) 2 ++
      [Log INFO (MsgLoaded 0); Log ERROR MsgNoValidAddress]).
Proof.
  intros Hsrc Hnone. unfold run_main.
  rewrite main_run, import_participants_run. cbv zeta.
  rewrite (source_ok _ _ Hsrc), Hnone. cbn [is_empty fst snd exit_status].
  f_equal. rewrite trace_after_start.
  rewrite heard_audible; [| apply start_world_audible |].
  - unfold reading_events. cbv zeta. rewrite (source_ok _ _ Hsrc), Hnone.
    rewrite <- !app_assoc. reflexivity.
  - rewrite !forallb_app, configuration_above_debug, reading_above_debug.
    reflexivity.
Qed.

Lemma no_valid_address_ends_run_witness :
  run_main (Sample.world_of (map Sample.csv_row [""; "notHex"]%string)
                            Sample.second_fails)
           (Sample.args_of 0 false) =
  (0, configuration_events (Sample.importer 0) false ++
      [Log WARNING (MsgEmptyAddress 2);
       Log WARNING (MsgInvalidAddress 3 (lit "notHex"));
       Log INFO (MsgLoaded 0); Log ERROR MsgNoValidAddress]).
Proof.
  apply (no_valid_address_ends_run
           (Sample.world_of (map Sample.csv_row [""; "notHex"]%string)
                            Sample.second_fails)
           (Sample.args_of 0 false)); reflexivity.
Defined.



(** What [time.sleep] does with a finite delay whose length in nanoseconds
    is clearly inside or clearly outside the range of the clock. *)
Lemma sleep_refusal_finite (c : clock_range) (q : Q) :
  ((nanoseconds q <= inject_Z (2 ^ 63 - 2 ^ 11))%Q ->
   sleep_refusal c (Finite q) = if Qle_bool 0 q then None else Some ValueError) /\
  ((inject_Z (2 ^ 63 + 2 ^ 11) <= nanoseconds q)%Q ->
   sleep_refusal c (Finite q) = Some OverflowError).
Proof.
  split; intros H; cbn.
  - now rewrite (overflows_within c q H).
  - now rewrite (overflows_beyond c q H).
Qed.



(** The delays the checks of [time.sleep] tell apart, on the sample clock. *)
Example sleep_refusal_samples :
  map (sleep_refusal Sample.clock64)
      [Finite 0; Finite 2; Finite 9000000000;
       Finite 10000000000; Finite 9223372037; Infinite false; Infinite true;
       Finite (-10000000000); Finite (-1); Finite (-1 # 1000000000000); NaN]
  = [None; None; None;
     Some OverflowError; Some OverflowError; Some OverflowError; Some OverflowError;
     Some OverflowError; Some ValueError; Some ValueError; Some ValueError].
Proof. reflexivity. Qed.

(** X15. A dry run that reaches its batches with a positive batch size
    previews the whole import: it starts no subprocess and never pauses, and
    its summary counts the number of addresses divided by the batch size,
    rounded up, many batches as succeeded, none as failed and every address
    read as processed. *)
Theorem dry_run_previews_all_addresses (E : env) (args : Args) :
  let addresses := addresses_of E (arg_csv args) (arg_address_column args) in
  let count := (len addresses + arg_batch_size args - 1) / arg_batch_size args in
  arg_dry_run args = true ->
  source_fails (arg_address_column args) (open_csv E (arg_csv args)) = false ->
  addresses <> [] ->
  0 < arg_batch_size args ->
  fst (run_main E args) = 0 /\
  effects (snd (run_main E args)) = [] /\
  exists before,
    snd (run_main E args) =
    before ++
    [Log INFO MsgSummaryHeader;
     Log INFO (MsgSucceededBatches count count);
     Log INFO (MsgFailedBatches 0 count);
     Log INFO (MsgProcessed (len addresses) (len addresses));
     Log INFO MsgAllSucceeded].
Proof.
  intros addresses count Hdry Hsrc Hne Hbs.
  split; [|split; [now apply main_dry_effects|]].
  - assert (Hz : arg_batch_size args <> 0) by lia.
    now rewrite (run_main_eq _ _ _ _ (main_dry E args Hdry Hsrc Hne Hz)).
  - assert (Hz : arg_batch_size args <> 0) by lia.
    rewrite (run_main_eq _ _ _ _ (main_dry E args Hdry Hsrc Hne Hz)).
    cbn [snd]. rewrite trace_after_start, heard_app.
    rewrite (heard_audible _ (summary_events _ _ _));
      [| apply start_world_audible | apply summary_above_debug].
    eexists. f_equal.
    rewrite fold_count_success. fold addresses.
    rewrite batches_of_concat, batches_of_count by trivial.
    unfold summary_events, batch_count. cbn. reflexivity.
Qed.

Lemma dry_run_previews_all_addresses_witness :
  let E := Sample.world_of Sample.three_rows Sample.second_fails in
  let args := Sample.args_of 2 true in
  fst (run_main E args) = 0 /\
  effects (snd (run_main E args)) = [] /\
  exists before,
    snd (run_main E args) =
    before ++
    [Log INFO MsgSummaryHeader;
     Log INFO (MsgSucceededBatches 2 2);
     Log INFO (MsgFailedBatches 0 2);
     Log INFO (MsgProcessed 3 3);
     Log INFO MsgAllSucceeded].
Proof.
  apply (dry_run_previews_all_addresses
           (Sample.world_of Sample.three_rows Sample.second_fails)
           (Sample.args_of 2 true)).
  - reflexivity.
  - reflexivity.
  - discriminate.
  - reflexivity.
Defined.

(** ** The verbose flag *)

Section LevelBlind.

Lemma blind_ret {A : Type} (a : A) : level_blind (ret a).
Proof. intros loud quiet H. now split. Qed.

Lemma blind_raise {A : Type} (e : exn) : level_blind (@raise A e).
Proof. intros loud quiet H. now split. Qed.

Lemma blind_sys_exit {A : Type} (c : Z) : level_blind (@sys_exit A c).
Proof. intros loud quiet H. now split. Qed.

Lemma blind_eval {A : Type} (o : outcome A) : level_blind (eval o).
Proof. intros loud quiet H. now split. Qed.

Lemma blind_bind {A B : Type} (m : M A) (k : A -> M B) :
  level_blind m -> (forall a, level_blind (k a)) -> level_blind (bind m k).
Proof.
  intros Hm Hk loud quiet H. unfold bind.
  destruct (Hm loud quiet H) as [Ho Hw].
  destruct (m loud) as [[a|e|c] loud'], (m quiet) as [[a'|e'|c'] quiet'];
    cbn [fst snd] in *; try discriminate.
  - injection Ho as <-. now apply Hk.
  - injection Ho as <-. now split.
  - injection Ho as <-. now split.
Qed.

Lemma blind_try {A : Type} (body : M A) (handler : exn -> M A) :
  level_blind body -> (forall e, level_blind (handler e)) ->
  level_blind (try_except body handler).
Proof.
  intros Hm Hk loud quiet H. unfold try_except.
  destruct (Hm loud quiet H) as [Ho Hw].
  destruct (body loud) as [[a|e|c] loud'], (body quiet) as [[a'|e'|c'] quiet'];
    cbn [fst snd] in *; try discriminate.
  - injection Ho as <-. now split.
  - injection Ho as <-. now apply Hk.
  - injection Ho as <-. now split.
Qed.

Lemma blind_log (lvl : level) (msg : message) : level_blind (logger_log lvl msg).
Proof.
  intros loud quiet (Hs & Hl & Hq & Ht). unfold logger_log, emit.
  rewrite Hl, Hq.
  destruct lvl; cbn [severity Z.leb Z.compare Pos.compare Pos.compare_cont fst snd];
    (split; [reflexivity|]); unfold level_twin; cbn [trace spawned log_level];
    rewrite ?filter_app, ?Ht; cbn [filter above_debug]; rewrite ?app_nil_r;
    repeat split; trivial.
Qed.

Lemma blind_emit (ev : event) : is_effect ev = true -> level_blind (emit ev).
Proof.
  intros Hev loud quiet (Hs & Hl & Hq & Ht). unfold emit. cbn [fst snd].
  split; [reflexivity|]. unfold level_twin. cbn [trace spawned log_level].
  repeat split; trivial. rewrite filter_app, Ht. f_equal.
  destruct ev; [discriminate | reflexivity | reflexivity].
Qed.

Lemma blind_sleep (E : env) (d : pyfloat) : level_blind (time_sleep E d).
Proof.
  unfold time_sleep. destruct (sleep_refusal (clock E) d);
    [apply blind_raise | now apply blind_emit].
Qed.

Lemma blind_run_subprocess (E : env) (cmd : command) (timeout : Z) :
  level_blind (run_subprocess E cmd timeout).
Proof.
  intros loud quiet (Hs & Hl & Hq & Ht). unfold run_subprocess. rewrite Hs.
  destruct (subprocess_run E (spawned quiet) cmd timeout); cbn [fst snd];
    (split; [reflexivity|]); unfold level_twin; cbn [trace spawned log_level];
    rewrite filter_app, Ht; repeat split; trivial.
Qed.

Lemma blind_for_each {A S : Type} (xs : list A) (body : A -> S -> M S) :
  (forall x s, level_blind (body x s)) ->
  forall s, level_blind (for_each xs body s).
Proof.
  intros Hbody. induction xs as [|x xs IH]; intros s; cbn [for_each].
  - apply blind_ret.
  - apply blind_bind; [apply Hbody | exact IH].
Qed.

End LevelBlind.

(** Takes a statement apart into the statements above. *)
Ltac blind :=
  unfold logger_info, logger_debug, logger_warning, logger_error;
  repeat first
    [ apply blind_ret | apply blind_raise | apply blind_sys_exit
    | apply blind_eval | apply blind_log | apply blind_sleep
    | apply blind_run_subprocess
    | apply blind_bind; [|intros]
    | apply blind_try; [|intros]
    | apply blind_for_each; intros
    | match goal with
      | |- level_blind (if ?b then _ else _) => destruct b
      | |- level_blind (match ?x with _ => _ end) => destruct x
      end ].

Lemma blind_import_participants (E : env) (self : Importer)
    (csv_file column : str) (dry_run : bool) :
  level_blind (import_participants E self csv_file column dry_run).
Proof.
  unfold import_participants, log_configuration, read_csv, create_batches,
    log_summary.
  blind.
  - unfold read_row. blind.
  - unfold process_batch. blind; unfold execute_add_participant; blind.
Qed.

(** X12. The [--verbose] flag changes nothing but the log: the exit status
    is the same with and without it, and the log without it is the log with
    it less the [DEBUG] records; the same commands are run and the same
    pauses made. *)
Theorem verbose_only_adds_debug_records (E : env) (args : Args) :
  fst (run_main E (with_verbose true args)) =
  fst (run_main E (with_verbose false args)) /\
  snd (run_main E (with_verbose false args)) =
  filter above_debug (snd (run_main E (with_verbose true args))) /\
  effects (snd (run_main E (with_verbose false args))) =
  effects (snd (run_main E (with_verbose true args))).
Proof.
  assert (Htwin : level_twin (start_world (with_verbose true args))
                             (start_world (with_verbose false args))).
  { unfold level_twin. repeat split. }
  destruct (blind_import_participants E (importer_of args) (arg_csv args)
              (arg_address_column args) (arg_dry_run args) _ _ Htwin)
    as (Ho & _ & _ & _ & Ht).
  unfold run_main. rewrite !main_run.
  change (importer_of (with_verbose true args)) with (importer_of args).
  change (importer_of (with_verbose false args)) with (importer_of args).
  cbn [with_verbose arg_csv arg_address_column arg_dry_run].
  destruct (import_participants _ _ _ _ _ (start_world (with_verbose true args)))
    as [o1 w1].
  destruct (import_participants _ _ _ _ _ (start_world (with_verbose false args)))
    as [o2 w2].
  cbn [fst snd] in *. subst o2. split; [reflexivity|]. split; [exact Ht|].
  rewrite Ht. unfold effects. clear.
  induction (trace w1) as [|ev evs IH]; [reflexivity|].
  cbn [filter]. destruct ev as [[] msg| |]; cbn [above_debug is_effect filter];
    now rewrite ?IH.
Qed.
